(** * Linearized ADMM ([scico/ladmm.py]): a shallow embedding and its properties

    The class [LinearizedADMM] is embedded as a record of its attributes and
    its methods as computations in a state-and-exception monad.  A Python
    exception leaves every assignment made before it in place, so the monad
    returns the state on both exits.

    jax arrays are immutable, so an array object is its identity together
    with its value; [copy], the arithmetic operators and [snp.zeros] create
    objects, the collaborators ([C], [f], [g]) create an object or hand one
    of their arguments back. *)

From Stdlib Require Import ZArith List String Bool Lia.
From Stdlib Require Import Floats.PrimFloat.
Import ListNotations.
Local Open Scope string_scope.

(** ** Exceptions *)

Inductive exn : Type :=
| ValueError (msg : string)
| AttributeError (msg : string)
| UnboundLocalError (msg : string)
| ZeroDivisionError (msg : string)
| Propagated (msg : string).     (* raised inside a collaborator, not caught *)

Inductive result (X : Type) : Type :=
| Ok (v : X)
| Raise (e : exn).
Arguments Ok {X} v.
Arguments Raise {X} e.

(** What a collaborator (operator, functional, user function) answers. *)
Inductive cres (X : Type) : Type :=
| Gives (v : X)
| Fails (msg : string).
Arguments Gives {X} v.
Arguments Fails {X} msg.

(** ** The monad *)

Definition M (S X : Type) : Type := S -> S * result X.

Definition ret {S X} (v : X) : M S X := fun s => (s, Ok v).

Definition raise {S X} (e : exn) : M S X := fun s => (s, Raise e).

Definition bind {S X Y} (m : M S X) (k : X -> M S Y) : M S Y :=
  fun s => match m s with
           | (s', Ok v) => k v s'
           | (s', Raise e) => (s', Raise e)
           end.

Declare Scope py_scope.
Delimit Scope py_scope with py.
Notation "v <- m ;; k" := (bind m (fun v => k))
  (at level 61, m at next level, right associativity) : py_scope.
Notation "m ;; k" := (bind m (fun _ => k))
  (at level 61, right associativity) : py_scope.
Open Scope py_scope.

(** ** The numerical platform

    What [scico.numpy], [scico.numpy.linalg.norm], Python's float arithmetic
    and [scico.util.Timer] provide to [ladmm.py].  These modules are not part
    of the file under study and are taken as parameters. *)

Class Numpy : Type := {
  scalar : Type;                          (* Python / jax scalars *)
  array : Type;                           (* JaxArray or BlockArray values *)
  shape : Type;
  dtype : Type;
  zero : scalar;                          (* the literal 0.0 *)
  plus : scalar -> scalar -> scalar;      (* out += ... *)
  truediv : scalar -> scalar -> option scalar; (* mu / nu, None: division by zero *)
  add : array -> array -> array;          (* a + b *)
  sub : array -> array -> array;          (* a - b *)
  mul : scalar -> array -> array;         (* s * a *)
  zeros : shape -> dtype -> array;        (* snp.zeros(shape, dtype=dtype) *)
  norm : array -> scalar;                 (* scico.numpy.linalg.norm *)
  Timer : Type;                           (* scico.util.Timer *)
  Timer_new : Timer;                      (* Timer() *)
  start : Timer -> Timer;
  stop : Timer -> Timer;
  elapsed : Timer -> scalar
}.

Section Model.
Context {NP : Numpy}.

(** ** Array objects *)

Record obj : Type := { oid : nat; oval : array }.

(** The object an operator call returns: a new array, or its argument. *)
Inductive from_op : Type :=
| OpNew (v : array)
| OpArg.

(** The object a prox call returns: a new array, its first argument, or the
    warm start [v0]. *)
Inductive from_prox : Type :=
| PxNew (v : array)
| PxArg
| PxWarm.

Definition op_value (r : from_op) (a : array) : array :=
  match r with OpNew v => v | OpArg => a end.

Definition prox_value (r : from_prox) (a a0 : array) : array :=
  match r with PxNew v => v | PxArg => a | PxWarm => a0 end.

(** ** Collaborators *)

(** Modelled from the spec: the LinearOperator contract ([scico.linop] is not
    among the sources): a forward map, an adjoint map, and queryable input
    and output shape and dtype.  Either map may fail. *)
Record LinearOperator : Type := {
  input_shape : shape;
  input_dtype : dtype;
  output_shape : shape;
  output_dtype : dtype;
  forward : array -> cres from_op;     (* C(x) *)
  adj : array -> cres from_op          (* C.adj(y), and C.conj().T(y) *)
}.

(** Modelled from the spec: the Functional contract ([scico.functional] is
    not among the sources): a capability flag, an evaluation that may fail,
    and [prox(v, step, v0)]. *)
Record Functional : Type := {
  has_eval : bool;
  eval : array -> cres scalar;                          (* f(x) *)
  prox : array -> scalar -> array -> cres from_prox     (* f.prox(v, t, v0=v0) *)
}.

Inductive who : Type := TheF | TheG.

(** Calls made to the collaborators, in the order they are made. *)
Inductive event : Type :=
| Apply (a : array)                                (* C(a) *)
| Adjoint (a : array)                              (* C.adj(a), C.conj().T(a) *)
| Eval (h : who) (a : array)                       (* f(a), g(a) *)
| Prox (h : who) (a : array) (t : scalar) (a0 : array).

(** ** Diagnostics *)

Inductive value : Type :=
| VInt (n : Z)
| VFloat (r : scalar).

(** Modelled from the spec: IterationStats ([scico.diagnostics] is not among
    the sources): records are accumulated in insertion order, with no
    numerical computation. *)
Record IterationStats : Type := {
  fields : list (string * string);
  display : bool;
  iterations : list (list value)
}.

Definition IterationStats_new (d : list (string * string)) (disp : bool) : IterationStats :=
  {| fields := d; display := disp; iterations := [] |}.

Definition insert (rec : list value) (st : IterationStats) : IterationStats :=
  {| fields := fields st; display := display st; iterations := iterations st ++ [rec] |}.

(** What a user-supplied function (a diagnostics function, a callback) can
    read off the solver it is passed; such a function answers or fails, and
    does not assign to the solver. *)
Record Snapshot : Type := {
  snap_itnum : Z;
  snap_maxiter : Z;
  snap_elapsed : scalar;
  snap_mu : scalar;
  snap_nu : scalar;
  snap_x : array;
  snap_z : array;
  snap_z_old : array;
  snap_u : array
}.

(** The three functions [itstat_insert_func] can be bound to in [__init__]. *)
Inductive insert_func : Type :=
| itstat_func_objective        (* lines 149-156 *)
| itstat_func_no_objective     (* lines 167-173 *)
| itstat_func_user (fn : Snapshot -> cres (list value)).

(** The argument [itstat]: [None], a pair, or a value that is false without
    being [None] (an empty tuple). *)
Inductive itstat_arg : Type :=
| ItNone
| ItPair (fieldspec : list (string * string)) (insertfunc : Snapshot -> cres (list value))
| ItEmpty.

(** ** The solver object *)

Record LinearizedADMM : Type := {
  f : option Functional;
  g : Functional;
  C : LinearOperator;
  mu : scalar;
  nu : scalar;
  itnum : Z;
  maxiter : Z;
  timer : Timer;
  verbose : bool;
  itstat_object : IterationStats;
  itstat_insert_func : insert_func;
  x : obj;
  z : obj;
  z_old : obj;
  u : obj
}.

Definition snapshot (s : LinearizedADMM) : Snapshot :=
  {| snap_itnum := itnum s; snap_maxiter := maxiter s;
     snap_elapsed := elapsed (timer s);
     snap_mu := mu s; snap_nu := nu s;
     snap_x := oval (x s); snap_z := oval (z s);
     snap_z_old := oval (z_old s); snap_u := oval (u s) |}.

(** ** State *)

(** What exists besides the solver: the next unused object identity and the
    collaborator calls made so far. *)
Record Env : Type := { next_id : nat; calls : list event }.

Record World : Type := { env : Env; self : LinearizedADMM }.

Class Ambient (S : Type) : Type := {
  get_env : S -> Env;
  put_env : Env -> S -> S
}.

#[export] Instance Ambient_Env : Ambient Env :=
  {| get_env := fun e => e; put_env := fun e _ => e |}.

#[export] Instance Ambient_World : Ambient World :=
  {| get_env := env; put_env := fun e w => {| env := e; self := self w |} |}.

(** A new object with value [v]. *)
Definition new {S} `{Ambient S} (v : array) : M S obj :=
  fun s => let e := get_env s in
           (put_env {| next_id := Datatypes.S (next_id e); calls := calls e |} s,
            Ok {| oid := next_id e; oval := v |}).

Definition emit {S} `{Ambient S} (ev : event) : M S unit :=
  fun s => let e := get_env s in
           (put_env {| next_id := next_id e; calls := calls e ++ [ev] |} s, Ok tt).

Definition answer {S X} (r : cres X) : M S X :=
  match r with
  | Gives v => ret v
  | Fails msg => raise (Propagated msg)
  end.

Definition from_operator {S} `{Ambient S} (r : from_op) (a : obj) : M S obj :=
  match r with OpNew v => new v | OpArg => ret a end.

Definition from_functional {S} `{Ambient S} (r : from_prox) (a a0 : obj) : M S obj :=
  match r with PxNew v => new v | PxArg => ret a | PxWarm => ret a0 end.

(** [L(a)] *)
Definition call {S} `{Ambient S} (L : LinearOperator) (a : obj) : M S obj :=
  emit (Apply (oval a)) ;;
  r <- answer (forward L (oval a)) ;;
  from_operator r a.

(** [L.adj(a)] *)
Definition call_adj {S} `{Ambient S} (L : LinearOperator) (a : obj) : M S obj :=
  emit (Adjoint (oval a)) ;;
  r <- answer (adj L (oval a)) ;;
  from_operator r a.

(** Modelled from the spec: [L.conj().T(a)]; [conj] and [T] belong to
    [scico.linop], which is not among the sources, and the spec reads
    [C.conj().T] as the adjoint of [C]. *)
Definition call_conj_T {S} `{Ambient S} (L : LinearOperator) (a : obj) : M S obj :=
  call_adj L a.

(** [F(a)] *)
Definition call_eval {S} `{Ambient S} (h : who) (F : Functional) (a : obj) : M S scalar :=
  emit (Eval h (oval a)) ;;
  answer (eval F (oval a)).

(** [F.prox(a, t, v0=a0)] *)
Definition call_prox {S} `{Ambient S} (h : who) (F : Functional) (a : obj) (t : scalar)
  (a0 : obj) : M S obj :=
  emit (Prox h (oval a) t (oval a0)) ;;
  r <- answer (prox F (oval a) t (oval a0)) ;;
  from_functional r a a0.

(** Array arithmetic: every operator creates its result. *)
Definition add_ {S} `{Ambient S} (a b : obj) : M S obj := new (add (oval a) (oval b)).
Definition sub_ {S} `{Ambient S} (a b : obj) : M S obj := new (sub (oval a) (oval b)).
Definition mul_ {S} `{Ambient S} (t : scalar) (a : obj) : M S obj := new (mul t (oval a)).
Definition copy {S} `{Ambient S} (a : obj) : M S obj := new (oval a).
Definition zeros_ {S} `{Ambient S} (sh : shape) (dt : dtype) : M S obj := new (zeros sh dt).

(** Python's [a / b] on floats. *)
Definition truediv_ {S} (a b : scalar) : M S scalar :=
  match truediv a b with
  | Some q => ret q
  | None => raise (ZeroDivisionError "float division by zero")
  end.

(** Modelled from the spec: [ensure_on_device] ([scico.util] is not among the
    sources); the spec takes the initial point itself as the first iterate. *)
Definition ensure_on_device {S} (a : obj) : M S obj := ret a.

(** ** Attribute access *)

Definition this : M World LinearizedADMM := fun w => (w, Ok (self w)).

Definition assign (upd : LinearizedADMM -> LinearizedADMM) : M World unit :=
  fun w => ({| env := env w; self := upd (self w) |}, Ok tt).

Definition set_x (o : obj) (s : LinearizedADMM) : LinearizedADMM :=
  {| f := f s; g := g s; C := C s; mu := mu s; nu := nu s; itnum := itnum s;
     maxiter := maxiter s; timer := timer s; verbose := verbose s;
     itstat_object := itstat_object s; itstat_insert_func := itstat_insert_func s;
     x := o; z := z s; z_old := z_old s; u := u s |}.

Definition set_z (o : obj) (s : LinearizedADMM) : LinearizedADMM :=
  {| f := f s; g := g s; C := C s; mu := mu s; nu := nu s; itnum := itnum s;
     maxiter := maxiter s; timer := timer s; verbose := verbose s;
     itstat_object := itstat_object s; itstat_insert_func := itstat_insert_func s;
     x := x s; z := o; z_old := z_old s; u := u s |}.

Definition set_z_old (o : obj) (s : LinearizedADMM) : LinearizedADMM :=
  {| f := f s; g := g s; C := C s; mu := mu s; nu := nu s; itnum := itnum s;
     maxiter := maxiter s; timer := timer s; verbose := verbose s;
     itstat_object := itstat_object s; itstat_insert_func := itstat_insert_func s;
     x := x s; z := z s; z_old := o; u := u s |}.

Definition set_u (o : obj) (s : LinearizedADMM) : LinearizedADMM :=
  {| f := f s; g := g s; C := C s; mu := mu s; nu := nu s; itnum := itnum s;
     maxiter := maxiter s; timer := timer s; verbose := verbose s;
     itstat_object := itstat_object s; itstat_insert_func := itstat_insert_func s;
     x := x s; z := z s; z_old := z_old s; u := o |}.

Definition set_itnum (n : Z) (s : LinearizedADMM) : LinearizedADMM :=
  {| f := f s; g := g s; C := C s; mu := mu s; nu := nu s; itnum := n;
     maxiter := maxiter s; timer := timer s; verbose := verbose s;
     itstat_object := itstat_object s; itstat_insert_func := itstat_insert_func s;
     x := x s; z := z s; z_old := z_old s; u := u s |}.

Definition set_maxiter (n : Z) (s : LinearizedADMM) : LinearizedADMM :=
  {| f := f s; g := g s; C := C s; mu := mu s; nu := nu s; itnum := itnum s;
     maxiter := n; timer := timer s; verbose := verbose s;
     itstat_object := itstat_object s; itstat_insert_func := itstat_insert_func s;
     x := x s; z := z s; z_old := z_old s; u := u s |}.

Definition set_timer (t : Timer) (s : LinearizedADMM) : LinearizedADMM :=
  {| f := f s; g := g s; C := C s; mu := mu s; nu := nu s; itnum := itnum s;
     maxiter := maxiter s; timer := t; verbose := verbose s;
     itstat_object := itstat_object s; itstat_insert_func := itstat_insert_func s;
     x := x s; z := z s; z_old := z_old s; u := u s |}.

Definition set_itstat_object (st : IterationStats) (s : LinearizedADMM) : LinearizedADMM :=
  {| f := f s; g := g s; C := C s; mu := mu s; nu := nu s; itnum := itnum s;
     maxiter := maxiter s; timer := timer s; verbose := verbose s;
     itstat_object := st; itstat_insert_func := itstat_insert_func s;
     x := x s; z := z s; z_old := z_old s; u := u s |}.

(** [self.f.<name>] when [self.f] may be [None]. *)
Definition method_of {S} (fo : option Functional) (name : string) : M S Functional :=
  match fo with
  | Some F => ret F
  | None => raise (AttributeError ("'NoneType' object has no attribute '" ++ name ++ "'"))
  end.

(** ** The methods of [LinearizedADMM] *)

(** [z_init] (lines 257-272); it reads [self.C] only, here its argument. *)
Definition z_init {S} `{Ambient S} (L : LinearOperator) (x0 : obj) : M S (obj * obj) :=
  z1 <- call L x0 ;;
  z2 <- copy z1 ;;
  ret (z1, z2).

(** [u_init] (lines 274-287); it reads [self.C] only, and ignores [x0]. *)
Definition u_init {S} `{Ambient S} (L : LinearOperator) (x0 : obj) : M S obj :=
  zeros_ (output_shape L) (output_dtype L).

Definition itstat_dict_objective : list (string * string) :=
  [("Iter", "%d"); ("Time", "%8.2e"); ("Objective", "%8.3e");
   ("Primal Rsdl", "%8.3e"); ("Dual Rsdl", "%8.3e")].

Definition itstat_dict_no_objective : list (string * string) :=
  [("Iter", "%d"); ("Time", "%8.1e"); ("Primal Rsdl", "%8.3e"); ("Dual Rsdl", "%8.3e")].

(** [__init__] (lines 92-184).  [maxiter] and [verbose] are passed
    explicitly; their defaults are 100 and False. *)
Definition init (f0 : option Functional) (g0 : Functional) (C0 : LinearOperator)
  (mu0 nu0 : scalar) (x0 : option obj) (maxiter0 : Z) (verbose0 : bool)
  (itstat : itstat_arg) : M Env LinearizedADMM :=
  let timer0 := Timer_new in
  p <- match itstat with
       | ItPair d fn => ret (d, itstat_func_user fn)
       | ItNone =>
           if has_eval g0
           then ret (itstat_dict_objective, itstat_func_objective)
           else ret (itstat_dict_no_objective, itstat_func_no_objective)
       | ItEmpty =>
           raise (UnboundLocalError
                    "local variable 'itstat_dict' referenced before assignment")
       end ;;
  let stats := IterationStats_new (fst p) verbose0 in
  x1 <- match x0 with
        | None => zeros_ (input_shape C0) (input_dtype C0)
        | Some a => ret a
        end ;;
  x2 <- ensure_on_device x1 ;;
  zz <- z_init C0 x2 ;;
  u0 <- u_init C0 x2 ;;
  ret {| f := f0; g := g0; C := C0; mu := mu0; nu := nu0; itnum := 0;
         maxiter := maxiter0; timer := timer0; verbose := verbose0;
         itstat_object := stats; itstat_insert_func := snd p;
         x := x2; z := fst zz; z_old := snd zz; u := u0 |}.

(** [objective] (lines 186-220). *)
Definition objective (xa za : option obj) : M World scalar :=
  s <- this ;;
  xz <- match xa, za with
        | None, None => ret (x s, z s)
        | Some a, Some b => ret (a, b)
        | _, _ => raise (ValueError "Both or neither of x and z must be supplied")
        end ;;
  let out := zero in
  out <- match f s with
         | Some F => v <- call_eval TheF F (fst xz) ;; ret (plus out v)
         | None => ret out
         end ;;
  v <- call_eval TheG (g s) (snd xz) ;;
  ret (plus out v).

(** [norm_primal_residual] (lines 222-242): the argument is bound to the
    local name [x], which the return expression does not read. *)
Definition norm_primal_residual (xa : option obj) : M World scalar :=
  s <- this ;;
  let x_local := match xa with None => x s | Some a => a end in
  Cx <- call (C s) (x s) ;;
  d <- sub_ Cx (z s) ;;
  ret (norm (oval d)).

(** [norm_dual_residual] (lines 244-255). *)
Definition norm_dual_residual : M World scalar :=
  s <- this ;;
  d <- sub_ (z s) (z_old s) ;;
  a <- call_adj (C s) d ;;
  ret (norm (oval a)).

(** [step] (lines 289-317).  Python evaluates [self.mu / self.nu] before the
    operand to its right. *)
Definition step : M World unit :=
  s <- this ;;
  q <- truediv_ (mu s) (nu s) ;;
  Cx <- call (C s) (x s) ;;
  d <- sub_ Cx (z s) ;;
  r <- add_ d (u s) ;;
  a <- call_conj_T (C s) r ;;
  qa <- mul_ q a ;;
  proxarg <- sub_ (x s) qa ;;
  F <- method_of (f s) "prox" ;;
  x' <- call_prox TheF F proxarg (mu s) (x s) ;;
  assign (set_x x') ;;
  s <- this ;;
  zc <- copy (z s) ;;
  assign (set_z_old zc) ;;
  s <- this ;;
  Cx <- call (C s) (x s) ;;
  v <- add_ Cx (u s) ;;
  z' <- call_prox TheG (g s) v (nu s) (z s) ;;
  assign (set_z z') ;;
  s <- this ;;
  t <- add_ (u s) Cx ;;
  u' <- sub_ t (z s) ;;
  assign (set_u u').

(** [self.itstat_insert_func(self)]. *)
Definition itstat_insert (k : insert_func) : M World (list value) :=
  match k with
  | itstat_func_objective =>
      s <- this ;;
      let c1 := VInt (itnum s) in
      let c2 := VFloat (elapsed (timer s)) in
      c3 <- objective None None ;;
      c4 <- norm_primal_residual None ;;
      c5 <- norm_dual_residual ;;
      ret [c1; c2; VFloat c3; VFloat c4; VFloat c5]
  | itstat_func_no_objective =>
      (* the first component is [obj.i]; the class sets no attribute [i] *)
      raise (AttributeError "'LinearizedADMM' object has no attribute 'i'")
  | itstat_func_user fn =>
      s <- this ;;
      answer (fn (snapshot s))
  end.

(** One pass of the loop body of [solve] (lines 338-343), after the loop
    variable has been assigned. *)
Definition iteration (callback : option (Snapshot -> cres unit)) : M World unit :=
  step ;;
  s <- this ;;
  rec <- itstat_insert (itstat_insert_func s) ;;
  s <- this ;;
  assign (set_itstat_object (insert rec (itstat_object s))) ;;
  match callback with
  | Some cb =>
      s <- this ;;
      assign (set_timer (stop (timer s))) ;;
      s <- this ;;
      answer (cb (snapshot s)) ;;
      s <- this ;;
      assign (set_timer (start (timer s)))
  | None => ret tt
  end.

(** [for self.itnum in range(i, i + n): body]. *)
Fixpoint for_itnum (n : nat) (i : Z) (body : M World unit) : M World unit :=
  match n with
  | O => ret tt
  | Datatypes.S n' =>
      assign (set_itnum i) ;;
      body ;;
      for_itnum n' (i + 1)%Z body
  end.

(** [solve] (lines 319-346). *)
Definition solve (callback : option (Snapshot -> cres unit)) : M World obj :=
  s <- this ;;
  assign (set_timer (start (timer s))) ;;
  s <- this ;;
  let lo := itnum s in
  let hi := (itnum s + maxiter s)%Z in
  for_itnum (Z.to_nat (hi - lo)) lo (iteration callback) ;;
  s <- this ;;
  assign (set_timer (stop (timer s))) ;;
  s <- this ;;
  assign (set_itnum (itnum s + 1)%Z) ;;
  s <- this ;;
  ret (x s).

(** ** The update of the specification, on values

    Steps 1 to 7 of the specification of [step], written on array values
    with the collaborators as partial functions. *)

Record Iterates : Type := { it_x : array; it_z : array; it_z_old : array; it_u : array }.

Definition iterates (s : LinearizedADMM) : Iterates :=
  {| it_x := oval (x s); it_z := oval (z s);
     it_z_old := oval (z_old s); it_u := oval (u s) |}.

Definition apply_C (L : LinearOperator) (a : array) : option array :=
  match forward L a with Gives r => Some (op_value r a) | Fails _ => None end.

Definition adjoint_C (L : LinearOperator) (a : array) : option array :=
  match adj L a with Gives r => Some (op_value r a) | Fails _ => None end.

Definition prox_at (F : Functional) (a : array) (t : scalar) (a0 : array) : option array :=
  match prox F a t a0 with Gives r => Some (prox_value r a a0) | Fails _ => None end.

Definition value_at (F : Functional) (a : array) : option scalar :=
  match eval F a with Gives v => Some v | Fails _ => None end.

Definition and_then {X Y} (o : option X) (k : X -> option Y) : option Y :=
  match o with Some v => k v | None => None end.

Notation "v <~ o ;; k" := (and_then o (fun v => k))
  (at level 61, o at next level, right associativity).

(** The quantities the specification names, and the iterates after them. *)
Record Update : Type := {
  upd_r : array;        (* 1. r = C(x) - z + u *)
  upd_p : array;        (* 2. p = x - (mu/nu) Ct(r) *)
  upd_Cx : array;       (* 5. Cx = C(x) at the new x *)
  upd_next : Iterates   (* 3, 4, 6, 7: the new x, z_old, z, u *)
}.

Definition spec_step (F G : Functional) (L : LinearOperator) (mu0 nu0 : scalar)
  (v : Iterates) : option Update :=
  Cx0 <~ apply_C L (it_x v) ;;
  let r := add (sub Cx0 (it_z v)) (it_u v) in
  q <~ truediv mu0 nu0 ;;
  Ctr <~ adjoint_C L r ;;
  let p := sub (it_x v) (mul q Ctr) in
  x' <~ prox_at F p mu0 (it_x v) ;;
  let z_old' := it_z v in
  Cx <~ apply_C L x' ;;
  z' <~ prox_at G (add Cx (it_u v)) nu0 (it_z v) ;;
  let u' := sub (add (it_u v) Cx) z' in
  Some {| upd_r := r; upd_p := p; upd_Cx := Cx;
          upd_next := {| it_x := x'; it_z := z'; it_z_old := z_old'; it_u := u' |} |}.

(** The collaborator calls of one update, in the order of the steps. *)
Definition spec_calls (mu0 nu0 : scalar) (v : Iterates) (d : Update) : list event :=
  [Apply (it_x v); Adjoint (upd_r d); Prox TheF (upd_p d) mu0 (it_x v);
   Apply (it_x (upd_next d));
   Prox TheG (add (upd_Cx d) (it_u v)) nu0 (it_z v)].

(** [f(x) + g(z)] as [objective] accumulates it from [0.0]; an absent [f]
    contributes nothing. *)
Definition spec_objective (fo : option Functional) (G : Functional) (vx vz : array)
  : option scalar :=
  a <~ match fo with
       | Some F => v <~ value_at F vx ;; Some (plus zero v)
       | None => Some zero
       end ;;
  b <~ value_at G vz ;;
  Some (plus a b).

(** Exactly one of the two optional arguments is supplied. *)
Definition exactly_one (xa za : option obj) : bool :=
  match xa, za with
  | Some _, None | None, Some _ => true
  | _, _ => false
  end.

(** Number of updates of [z] a trace contains: each [step] calls [g.prox]
    once, and nothing else does. *)
Fixpoint updates_of (l : list event) : nat :=
  match l with
  | [] => 0
  | Prox TheG _ _ _ :: l' => Datatypes.S (updates_of l')
  | _ :: l' => updates_of l'
  end.

(** ** Configurations whose collaborators always answer *)

Definition total_operator (L : LinearOperator) : Prop :=
  (forall a, exists r, forward L a = Gives r) /\ (forall a, exists r, adj L a = Gives r).

Definition total_prox (F : Functional) : Prop :=
  forall a t a0, exists r, prox F a t a0 = Gives r.

Definition total_eval (F : Functional) : Prop :=
  forall a, exists v, eval F a = Gives v.

Definition total_insert_func (s : LinearizedADMM) : Prop :=
  match itstat_insert_func s with
  | itstat_func_objective => (forall F, f s = Some F -> total_eval F) /\ total_eval (g s)
  | itstat_func_no_objective => False
  | itstat_func_user fn => forall p, exists rec, fn p = Gives rec
  end.

Definition total_callback (callback : option (Snapshot -> cres unit)) : Prop :=
  match callback with
  | Some cb => forall p, cb p = Gives tt
  | None => True
  end.

(** A solver with [f] present, [mu / nu] defined, and collaborators and
    diagnostics function that answer on every input. *)
Definition well_configured (s : LinearizedADMM) : Prop :=
  (exists F, f s = Some F /\ total_prox F) /\
  total_prox (g s) /\
  total_operator (C s) /\
  (exists q, truediv (mu s) (nu s) = Some q) /\
  total_insert_func s.

(** ** Reachable states *)

(** The state a method call leaves, whether it returns or raises. *)
Definition after {X} (m : M World X) (w : World) : World := fst (m w).

(** The caller changes the budget between two calls of [solve]. *)
Definition with_maxiter (n : Z) (w : World) : World :=
  {| env := env w; self := set_maxiter n (self w) |}.

Inductive reachable_from (w0 : World) : World -> Prop :=
| reach_here : reachable_from w0 w0
| reach_step w : reachable_from w0 w -> reachable_from w0 (after step w)
| reach_solve w cb : reachable_from w0 w -> reachable_from w0 (after (solve cb) w)
| reach_objective w xa za :
    reachable_from w0 w -> reachable_from w0 (after (objective xa za) w)
| reach_norm_primal_residual w xa :
    reachable_from w0 w -> reachable_from w0 (after (norm_primal_residual xa) w)
| reach_norm_dual_residual w :
    reachable_from w0 w -> reachable_from w0 (after norm_dual_residual w)
| reach_maxiter w n : reachable_from w0 w -> reachable_from w0 (with_maxiter n w).

(** An initial point the caller supplies exists before the call. *)
Definition exists_in (e : Env) (x0 : option obj) : Prop :=
  match x0 with Some a => oid a < next_id e | None => True end.

(** The state right after a successful construction. *)
Definition constructed (w : World) : Prop :=
  exists f0 g0 C0 mu0 nu0 x0 maxiter0 verbose0 itstat e,
    exists_in e x0 /\
    init f0 g0 C0 mu0 nu0 x0 maxiter0 verbose0 itstat e = (env w, Ok (self w)).

Definition reachable (w : World) : Prop :=
  exists w0, constructed w0 /\ reachable_from w0 w.

(** ** Predicates on states *)

(** The attributes no method assigns after construction. *)
Definition same_setup (s s' : LinearizedADMM) : Prop :=
  f s' = f s /\ g s' = g s /\ C s' = C s /\ mu s' = mu s /\ nu s' = nu s /\
  verbose s' = verbose s /\ itstat_insert_func s' = itstat_insert_func s.

(** The attributes [step] neither reads nor assigns. *)
Definition same_bookkeeping (s s' : LinearizedADMM) : Prop :=
  itnum s' = itnum s /\ maxiter s' = maxiter s /\ timer s' = timer s /\
  itstat_object s' = itstat_object s.

(** Every array the solver holds exists. *)
Definition allocated (w : World) : Prop :=
  oid (x (self w)) < next_id (env w) /\ oid (z (self w)) < next_id (env w) /\
  oid (z_old (self w)) < next_id (env w) /\ oid (u (self w)) < next_id (env w).

(** [z is not z_old]. *)
Definition distinct_z (s : LinearizedADMM) : Prop := oid (z s) <> oid (z_old s).

Definition invariant (w : World) : Prop := allocated w /\ distinct_z (self w).

Definition preserves {X} (P : World -> Prop) (m : M World X) : Prop :=
  forall w, P w -> P (after m w).

(** The iterates, the setup, the counter and the budget are those of [s0]. *)
Definition as_left (s0 : LinearizedADMM) (w : World) : Prop :=
  iterates (self w) = iterates s0 /\ same_setup s0 (self w) /\
  itnum (self w) = itnum s0 /\ maxiter (self w) = maxiter s0.

(** The initial point [__init__] starts from. *)
Definition initial_point (L : LinearOperator) (x0 : option obj) : array :=
  match x0 with
  | Some a => oval a
  | None => zeros (input_shape L) (input_dtype L)
  end.

(** A computation that reads the solver without assigning to it; it may
    create arrays and call collaborators other than [g.prox]. *)
Definition observes {X} (m : M World X) : Prop :=
  forall w,
    self (after m w) = self w /\
    next_id (env w) <= next_id (env (after m w)) /\
    updates_of (calls (env (after m w))) = updates_of (calls (env w)).

(** A property of the state that neither new arrays and calls nor the
    bookkeeping attributes affect. *)
Definition stable (P : World -> Prop) : Prop :=
  (forall w e', P w -> next_id (env w) <= next_id e' -> P {| env := e'; self := self w |}) /\
  (forall w n, P w -> P {| env := env w; self := set_itnum n (self w) |}) /\
  (forall w n, P w -> P {| env := env w; self := set_maxiter n (self w) |}) /\
  (forall w t, P w -> P {| env := env w; self := set_timer t (self w) |}) /\
  (forall w st, P w -> P {| env := env w; self := set_itstat_object st (self w) |}).

(** The point [objective] evaluates at: the arguments when both are given,
    the current iterate otherwise. *)
Definition objective_point (s : LinearizedADMM) (xa za : option obj) : obj * obj :=
  match xa, za with
  | Some a, Some b => (a, b)
  | _, _ => (x s, z s)
  end.

(** The primal residual of the specification at a point [vx]: the norm of
    [C(vx) - z]. *)
Definition spec_norm_primal_residual (L : LinearOperator) (vx vz : array) : option scalar :=
  Cx <~ apply_C L vx ;;
  Some (norm (sub Cx vz)).

(** ** The diagnostics of the specification, on values *)

(** The dual residual: the norm of [Ct(z - z_old)]. *)
Definition spec_norm_dual_residual (L : LinearOperator) (vz vz_old : array)
  : option scalar :=
  a <~ adjoint_C L (sub vz vz_old) ;;
  Some (norm a).

Definition spec_snapshot (s : LinearizedADMM) (i : Z) (t : Timer) (v : Iterates)
  : Snapshot :=
  {| snap_itnum := i; snap_maxiter := maxiter s; snap_elapsed := elapsed t;
     snap_mu := mu s; snap_nu := nu s;
     snap_x := it_x v; snap_z := it_z v; snap_z_old := it_z_old v; snap_u := it_u v |}.

(** The record of one iteration for the solver set up as [s], when the
    counter is [i], the timer [t] and the iterates [v]. *)
Definition spec_record (s : LinearizedADMM) (i : Z) (t : Timer) (v : Iterates)
  : option (list value) :=
  match itstat_insert_func s with
  | itstat_func_objective =>
      o <~ spec_objective (f s) (g s) (it_x v) (it_z v) ;;
      p <~ spec_norm_primal_residual (C s) (it_x v) (it_z v) ;;
      q <~ spec_norm_dual_residual (C s) (it_z v) (it_z_old v) ;;
      Some [VInt i; VFloat (elapsed t); VFloat o; VFloat p; VFloat q]
  | itstat_func_no_objective => None
  | itstat_func_user fn =>
      match fn (spec_snapshot s i t v) with Gives r => Some r | Fails _ => None end
  end.

Definition spec_update (s : LinearizedADMM) (v : Iterates) : option Update :=
  F <~ f s ;;
  spec_step F (g s) (C s) (mu s) (nu s) v.

(** [n] updates in a row. *)
Fixpoint spec_updates (n : nat) (s : LinearizedADMM) (v : Iterates) : option Iterates :=
  match n with
  | O => Some v
  | Datatypes.S n' =>
      d <~ spec_update s v ;;
      spec_updates n' s (upd_next d)
  end.

(** The records of [n] iterations from counter [i]: each is taken right
    after one update; [paused] tells whether a callback stops and restarts
    the timer after each. *)
Fixpoint spec_log (n : nat) (paused : bool) (s : LinearizedADMM) (i : Z) (t : Timer)
  (v : Iterates) : option (list (list value)) :=
  match n with
  | O => Some []
  | Datatypes.S n' =>
      d <~ spec_update s v ;;
      r <~ spec_record s i t (upd_next d) ;;
      l <~ spec_log n' paused s (i + 1)%Z (if paused then start (stop t) else t)
             (upd_next d) ;;
      Some (r :: l)
  end.

Definition is_given {X} (o : option X) : bool :=
  match o with Some _ => true | None => false end.

(** ** Further notions for [solve] and the diagnostics *)

(** What a callback does to the timer in one pass of the loop of [solve]
    (lines 340-343): it is stopped and started again. *)
Definition pause (callback : option (Snapshot -> cres unit)) (t : Timer) : Timer :=
  match callback with Some _ => start (stop t) | None => t end.

(** The diagnostics object after the records [recs] have been inserted. *)
Definition extended (st : IterationStats) (recs : list (list value)) : IterationStats :=
  {| fields := fields st; display := display st; iterations := iterations st ++ recs |}.

(** An evaluation of [f] or [g], as opposed to a prox or an operator call. *)
Definition is_eval (ev : event) : bool :=
  match ev with Eval _ _ => true | _ => false end.

(** [n] calls of [solve] in a row, as a caller's loop
    [for k in range(n): solver.solve()] makes them. *)
Fixpoint solve_repeatedly (n : nat) (callback : option (Snapshot -> cres unit))
  : M World unit :=
  match n with
  | O => ret tt
  | Datatypes.S n' => solve callback ;; solve_repeatedly n' callback
  end.

(** The evaluations [objective] makes: none when exactly one argument is
    given; otherwise [f], if present, then [g] unless [f] failed. *)
Definition objective_calls (s : LinearizedADMM) (xa za : option obj) : list event :=
  if exactly_one xa za then []
  else
    let p := objective_point s xa za in
    match f s with
    | Some F =>
        Eval TheF (oval (fst p))
        :: match eval F (oval (fst p)) with
           | Gives _ => [Eval TheG (oval (snd p))]
           | Fails _ => []
           end
    | None => [Eval TheG (oval (snd p))]
    end.

End Model.

Arguments obj {NP}.
Arguments World {NP}.
Arguments Env {NP}.
Arguments LinearizedADMM {NP}.

(** ** A concrete platform: one-dimensional arrays of binary64 floats *)

Module Float64.

Fixpoint zip_with (op : float -> float -> float) (a b : list float) : list float :=
  match a, b with
  | p :: a', q :: b' => op p q :: zip_with op a' b'
  | _, _ => []
  end.

Definition sum_squares (a : list float) : float :=
  fold_left (fun acc p => PrimFloat.add acc (PrimFloat.mul p p)) a 0%float.

(** A timer that counts its completed intervals; it reads no clock. *)
Record Laps : Type := { running : bool; laps : nat }.

#[export] Instance platform : Numpy := {|
  scalar := float;
  array := list float;
  shape := nat;
  dtype := unit;
  zero := 0%float;
  plus := PrimFloat.add;
  truediv := fun a b => if PrimFloat.eqb b 0%float then None else Some (PrimFloat.div a b);
  add := zip_with PrimFloat.add;
  sub := zip_with PrimFloat.sub;
  mul := fun t a => map (PrimFloat.mul t) a;
  zeros := fun n _ => repeat 0%float n;
  norm := fun a => PrimFloat.sqrt (sum_squares a);
  Timer := Laps;
  Timer_new := {| running := false; laps := 0 |};
  start := fun t => {| running := true; laps := laps t |};
  stop := fun t => {| running := false; laps := if running t then S (laps t) else laps t |};
  elapsed := fun t => 0%float
|}.

(** The identity operator on arrays of [n] entries: it refuses an argument
    of another shape, and hands its argument back. *)
Definition Identity (n : nat) : LinearOperator :=
  {| input_shape := n; input_dtype := tt; output_shape := n; output_dtype := tt;
     forward := fun a => if Nat.eqb (List.length a) n then Gives OpArg
                         else Fails "Cannot evaluate Identity on array of this shape";
     adj := fun a => if Nat.eqb (List.length a) n then Gives OpArg
                     else Fails "Cannot evaluate Identity on array of this shape" |}.

(** The zero functional: value 0, prox the identity. *)
Definition ZeroFunctional : Functional :=
  {| has_eval := true;
     eval := fun _ => Gives 0%float;
     prox := fun v _ _ => Gives PxArg |}.

Definition clamp (p : float) : float := if PrimFloat.ltb p 0%float then 0%float else p.

(** The indicator of the non-negative orthant: prox clamps at 0. *)
Definition NonNegativeIndicator : Functional :=
  {| has_eval := true;
     eval := fun a => Gives (if forallb (fun p => PrimFloat.leb 0%float p) a
                             then 0%float else infinity);
     prox := fun v _ _ => Gives (PxNew (map clamp v)) |}.

(** A functional known through its prox only (a denoiser): not evaluable. *)
Definition Denoiser : Functional :=
  {| has_eval := false;
     eval := fun _ => Fails "not evaluable";
     prox := fun v _ _ => Gives (PxNew (map clamp v)) |}.

(** Objects the caller makes before constructing a solver. *)
Definition arr (i : nat) (v : list float) : obj := {| oid := i; oval := v |}.

(** Run [__init__] in an environment with [k] objects and no call made. *)
Definition construct (k : nat) (f0 : option Functional) (g0 : Functional)
  (C0 : LinearOperator) (mu0 nu0 : float) (x0 : option obj) (maxiter0 : Z)
  (itstat : itstat_arg) : Env * result LinearizedADMM :=
  init f0 g0 C0 mu0 nu0 x0 maxiter0 false itstat {| next_id := k; calls := [] |}.

(** The scenario of the end-to-end test: [C] the identity on two entries,
    [f] zero, [g] the indicator, [mu = 0.5], [nu = 1.0], [x0 = [-1, 2]]. *)
Definition scenario : Env * result LinearizedADMM :=
  construct 1 (Some ZeroFunctional) NonNegativeIndicator (Identity 2)
    0.5%float 1%float (Some (arr 0 [(-1)%float; 2%float])) 100 ItNone.

Fixpoint steps (n : nat) (w : World) : World :=
  match n with
  | O => w
  | S n' => steps n' (fst (step w))
  end.

(** The identity operator that accepts every array. *)
Definition Id : LinearOperator :=
  {| input_shape := 2; input_dtype := tt; output_shape := 2; output_dtype := tt;
     forward := fun _ => Gives OpArg;
     adj := fun _ => Gives OpArg |}.

(** The solver [scenario] constructs: [C] hands [x0] back, so [z] is [x0]
    itself, [z_old] its copy and [u] a new array of zeros. *)
Definition scenario_solver : LinearizedADMM :=
  {| f := Some ZeroFunctional; g := NonNegativeIndicator; C := Identity 2;
     mu := 0.5%float; nu := 1%float; itnum := 0; maxiter := 100;
     timer := {| running := false; laps := 0 |}; verbose := false;
     itstat_object := IterationStats_new itstat_dict_objective false;
     itstat_insert_func := itstat_func_objective;
     x := arr 0 [(-1)%float; 2%float];
     z := arr 0 [(-1)%float; 2%float];
     z_old := arr 1 [(-1)%float; 2%float];
     u := arr 2 [0%float; 0%float] |}.

Definition scenario_world : World :=
  {| env := {| next_id := 3; calls := [Apply [(-1)%float; 2%float]] |};
     self := scenario_solver |}.

(** The quantities of the first update of [scenario_world]. *)
Definition scenario_update : Update :=
  {| upd_r := [0%float; 0%float];
     upd_p := [(-1)%float; 2%float];
     upd_Cx := [(-1)%float; 2%float];
     upd_next := {| it_x := [(-1)%float; 2%float]; it_z := [0%float; 2%float];
                    it_z_old := [(-1)%float; 2%float];
                    it_u := [(-1)%float; 0%float] |} |}.

(** The diagnostics records of the first two iterations of the scenario:
    Iter, Time, Objective, Primal Rsdl, Dual Rsdl. *)
Definition scenario_records : list (list value) :=
  [[VInt 0; VFloat 0%float; VFloat 0%float; VFloat 1%float; VFloat 1%float];
   [VInt 1; VFloat 0%float; VFloat 0%float; VFloat 0%float; VFloat 0%float]].

(** The tolerance 1e-9 of the end-to-end test, and closeness within it. *)
Definition tolerance : float := PrimFloat.div 1%float 1000000000%float.

Fixpoint close_to (a b : list float) : bool :=
  match a, b with
  | [], [] => true
  | p :: a', q :: b' =>
      PrimFloat.leb (PrimFloat.abs (PrimFloat.sub p q)) tolerance && close_to a' b'
  | _, _ => false
  end.

(** [scenario_solver] with the operator that accepts every array. *)
Definition total_solver : LinearizedADMM :=
  {| f := Some ZeroFunctional; g := NonNegativeIndicator; C := Id;
     mu := 0.5%float; nu := 1%float; itnum := 0; maxiter := 100;
     timer := {| running := false; laps := 0 |}; verbose := false;
     itstat_object := IterationStats_new itstat_dict_objective false;
     itstat_insert_func := itstat_func_objective;
     x := arr 0 [(-1)%float; 2%float];
     z := arr 0 [(-1)%float; 2%float];
     z_old := arr 1 [(-1)%float; 2%float];
     u := arr 2 [0%float; 0%float] |}.

Definition total_world : World :=
  {| env := {| next_id := 3; calls := [Apply [(-1)%float; 2%float]] |};
     self := total_solver |}.

(** The solver of the scenario constructed with [f = None]. *)
Definition solver_without_f : LinearizedADMM :=
  {| f := None; g := NonNegativeIndicator; C := Identity 2;
     mu := 0.5%float; nu := 1%float; itnum := 0; maxiter := 100;
     timer := {| running := false; laps := 0 |}; verbose := false;
     itstat_object := IterationStats_new itstat_dict_objective false;
     itstat_insert_func := itstat_func_objective;
     x := arr 0 [(-1)%float; 2%float];
     z := arr 0 [(-1)%float; 2%float];
     z_old := arr 1 [(-1)%float; 2%float];
     u := arr 2 [0%float; 0%float] |}.

Definition world_without_f : World :=
  {| env := {| next_id := 3; calls := [Apply [(-1)%float; 2%float]] |};
     self := solver_without_f |}.

(** The solver of the scenario constructed with [g] a denoiser and the
    default diagnostics. *)
Definition denoiser_solver : LinearizedADMM :=
  {| f := Some ZeroFunctional; g := Denoiser; C := Identity 2;
     mu := 0.5%float; nu := 1%float; itnum := 0; maxiter := 100;
     timer := {| running := false; laps := 0 |}; verbose := false;
     itstat_object := IterationStats_new itstat_dict_no_objective false;
     itstat_insert_func := itstat_func_no_objective;
     x := arr 0 [(-1)%float; 2%float];
     z := arr 0 [(-1)%float; 2%float];
     z_old := arr 1 [(-1)%float; 2%float];
     u := arr 2 [0%float; 0%float] |}.

Definition denoiser_world : World :=
  {| env := {| next_id := 3; calls := [Apply [(-1)%float; 2%float]] |};
     self := denoiser_solver |}.

(** The solver of the scenario constructed with [nu = 0]. *)
Definition zero_nu_solver : LinearizedADMM :=
  {| f := Some ZeroFunctional; g := NonNegativeIndicator; C := Identity 2;
     mu := 0.5%float; nu := 0%float; itnum := 0; maxiter := 100;
     timer := {| running := false; laps := 0 |}; verbose := false;
     itstat_object := IterationStats_new itstat_dict_objective false;
     itstat_insert_func := itstat_func_objective;
     x := arr 0 [(-1)%float; 2%float];
     z := arr 0 [(-1)%float; 2%float];
     z_old := arr 1 [(-1)%float; 2%float];
     u := arr 2 [0%float; 0%float] |}.

Definition zero_nu_world : World :=
  {| env := {| next_id := 3; calls := [Apply [(-1)%float; 2%float]] |};
     self := zero_nu_solver |}.

(** A callback that looks at the solver and returns. *)
Definition watch : option (Snapshot -> cres unit) := Some (fun _ => Gives tt).

End Float64.


Import Float64.
Local Open Scope list_scope.

(** * Properties *)

(** ** Symbolic execution *)

Ltac unfold_py :=
  cbv beta iota zeta delta
    [bind ret raise this assign truediv_ call call_conj_T call_adj call_eval call_prox
     emit answer from_operator from_functional new sub_ add_ mul_ zeros_ copy
     method_of ensure_on_device get_env put_env Ambient_World Ambient_Env after].

(** Case analysis on the collaborator answers a hypothesis depends on. *)
Ltac split_outcomes H :=
  repeat match type of H with
  | context [match ?c with Gives _ => _ | Fails _ => _ end] =>
      destruct c eqn:?; try discriminate H
  | context [match ?c with Some _ => _ | None => _ end] =>
      destruct c eqn:?; try discriminate H
  end.

(** Two recorded answers to the same call are the same answer. *)
Ltac merge_outcomes :=
  repeat match goal with
         | H1 : ?c = _, H2 : ?c = _ |- _ =>
             rewrite H1 in H2; inversion H2; subst; clear H2
         end.

Ltac use_outcomes :=
  repeat match goal with
         | H : ?c = _ |- context [match ?c with _ => _ end] => rewrite H; simpl
         end.

Ltac split_objects :=
  repeat match goal with
         | r : from_op |- _ => destruct r
         | r : from_prox |- _ => destruct r
         end.

(** Case analysis on every answer the goal depends on. *)
Ltac explore :=
  repeat (simpl;
          match goal with
          | H : ?c = _ |- context [match ?c with _ => _ end] => rewrite H
          | |- context [match ?c with Gives _ => _ | Fails _ => _ end] => destruct c eqn:?
          | |- context [match ?c with Some _ => _ | None => _ end] => destruct c eqn:?
          | |- context [match ?c with OpNew _ => _ | OpArg => _ end] => destruct c
          | |- context [match ?c with PxNew _ => _ | PxArg => _ | PxWarm => _ end] =>
              destruct c
          end).

Section Theory.
Context {NP : Numpy}.

(** ** [step] *)

Lemma updates_of_app (l l' : list event) :
  updates_of (l ++ l') = updates_of l + updates_of l'.
Proof.
  induction l as [|ev l IH]; simpl; [reflexivity|].
  destruct ev as [a|a|h a|h a t a0]; try exact IH. destruct h; simpl; [exact IH|].
  rewrite IH. reflexivity.
Qed.

(** When [f] is present and the collaborators answer, [step] returns, with
    the iterates of the specification and one more call of [g.prox]. *)
Lemma step_run (w : World) (F : Functional) (d : Update) :
  f (self w) = Some F ->
  spec_step F (g (self w)) (C (self w)) (mu (self w)) (nu (self w))
    (iterates (self w)) = Some d ->
  exists w',
    step w = (w', Ok tt) /\
    iterates (self w') = upd_next d /\
    updates_of (calls (env w')) = S (updates_of (calls (env w))).
Proof.
  destruct w as [[n tr] s]. simpl. intros Hf Hs.
  unfold spec_step, apply_C, adjoint_C, prox_at, and_then in Hs. simpl in Hs.
  split_outcomes Hs.
  injection Hs as <-.
  unfold step.
  all: split_objects; simpl in *; merge_outcomes; unfold_py; simpl; use_outcomes.
  all: eexists; (split; [reflexivity|]); split;
    [reflexivity | simpl; rewrite ?updates_of_app; simpl; lia].
Qed.

(** Whatever happens, [step] leaves the other attributes alone. *)
Lemma step_keeps_setup (w : World) :
  same_setup (self w) (self (after step w)) /\
  same_bookkeeping (self w) (self (after step w)).
Proof.
  destruct w as [[n tr] s]. unfold after, step. unfold_py.
  explore; repeat split; reflexivity.
Qed.

(** Whatever happens, [step] keeps the arrays allocated and [z], [z_old]
    distinct. *)
Lemma step_preserves_invariant : preserves invariant step.
Proof.
  intros [[n tr] s] [(Hx & Hz & Hzo & Hu) Hd].
  unfold invariant, allocated, distinct_z in *. simpl in *.
  unfold after, step. unfold_py.
  explore; simpl; lia.
Qed.

(** When [step] returns, [z_old] is a new object with the value [z] had. *)
Lemma step_snapshots_z (w w' : World) :
  step w = (w', Ok tt) ->
  oval (z_old (self w')) = oval (z (self w)) /\ next_id (env w) <= oid (z_old (self w')).
Proof.
  destruct w as [[n tr] s]. unfold step. unfold_py.
  explore; intros H; inversion H; simpl; split; try reflexivity; lia.
Qed.

(** C1. When [f] is present and the collaborators answer, [step] returns
    and performs the update of the specification: the values of [x],
    [z_old], [z] and [u] afterwards are those of steps 1 to 7, [z_old] is a
    new object, the collaborators are called as the steps say and in that
    order, no other attribute is assigned, and no diagnostics are recorded. *)
Theorem step_performs_update (w : World) (F : Functional) (d : Update) :
  f (self w) = Some F ->
  spec_step F (g (self w)) (C (self w)) (mu (self w)) (nu (self w))
    (iterates (self w)) = Some d ->
  exists e' x' zc z' u',
    step w = ({| env := e';
                 self := set_u u' (set_z z' (set_z_old zc (set_x x' (self w)))) |},
              Ok tt) /\
    iterates (set_u u' (set_z z' (set_z_old zc (set_x x' (self w))))) = upd_next d /\
    calls e' = calls (env w)
               ++ spec_calls (mu (self w)) (nu (self w)) (iterates (self w)) d /\
    next_id (env w) <= oid zc < next_id e' /\
    itstat_object (set_u u' (set_z z' (set_z_old zc (set_x x' (self w)))))
    = itstat_object (self w).
Proof.
  destruct w as [[n tr] s]. simpl. intros Hf Hs.
  unfold spec_step, apply_C, adjoint_C, prox_at, and_then in Hs. simpl in Hs.
  split_outcomes Hs.
  injection Hs as <-.
  unfold step.
  all: split_objects; simpl in *; merge_outcomes; unfold_py; simpl; use_outcomes.
  all: do 5 eexists; (split; [reflexivity|]);
    split; [reflexivity | split; [simpl; rewrite <- ?app_assoc; reflexivity | ]];
    split; [simpl; lia | reflexivity].
Qed.

(** ** The monad and the methods that only read *)

Lemma run_bind_ok {S X Y} (m : M S X) (k : X -> M S Y) (s s' : S) (v : X) :
  m s = (s', Ok v) -> bind m k s = k v s'.
Proof. intros H. unfold bind. rewrite H. reflexivity. Qed.

Lemma run_bind_raise {S X Y} (m : M S X) (k : X -> M S Y) (s s' : S) (e : exn) :
  m s = (s', Raise e) -> bind m k s = (s', Raise e).
Proof. intros H. unfold bind. rewrite H. reflexivity. Qed.

Lemma after_bind {X Y} (m : M World X) (k : X -> M World Y) (w : World) :
  after (bind m k) w
  = match m w with
    | (w', Ok v) => after (k v) w'
    | (w', Raise _) => w'
    end.
Proof. unfold after, bind. destruct (m w) as [w' [v|e]]; reflexivity. Qed.

Lemma preserves_bind {X Y} (P : World -> Prop) (m : M World X) (k : X -> M World Y) :
  preserves P m -> (forall v, preserves P (k v)) -> preserves P (bind m k).
Proof.
  intros Hm Hk w Hw. rewrite after_bind. specialize (Hm w Hw). unfold after in Hm.
  destruct (m w) as [w' [v|e]]; simpl in Hm; [apply Hk|]; assumption.
Qed.

Lemma preserves_ret {X} (P : World -> Prop) (v : X) : preserves P (ret v).
Proof. intros w Hw. exact Hw. Qed.

Lemma preserves_this (P : World -> Prop) : preserves P this.
Proof. intros w Hw. exact Hw. Qed.

Lemma preserves_answer {X} (P : World -> Prop) (r : cres X) : preserves P (answer r).
Proof. intros w Hw. destruct r; exact Hw. Qed.

Ltac observe :=
  intros [[n tr] s]; unfold_py; explore;
  simpl; rewrite ?updates_of_app; simpl; repeat split; lia.

Lemma objective_observes (xa za : option obj) : observes (objective xa za).
Proof. unfold objective. destruct xa, za; observe. Qed.

Lemma norm_primal_residual_observes (xa : option obj) :
  observes (norm_primal_residual xa).
Proof. unfold norm_primal_residual. observe. Qed.

Lemma norm_dual_residual_observes : observes norm_dual_residual.
Proof. unfold norm_dual_residual. observe. Qed.

Lemma itstat_insert_observes (k : insert_func) : observes (itstat_insert k).
Proof.
  destruct k; unfold itstat_insert, objective, norm_primal_residual, norm_dual_residual;
    observe.
Qed.

Lemma observes_preserves {X} (P : World -> Prop) (m : M World X) :
  stable P -> observes m -> preserves P m.
Proof.
  intros (Henv & _) Hm w Hw. destruct (Hm w) as (Hs & Hn & _).
  specialize (Henv w (env (after m w)) Hw Hn). rewrite <- Hs in Henv.
  destruct (after m w); exact Henv.
Qed.

Lemma run_this {Y} (k : LinearizedADMM -> M World Y) (w : World) :
  bind this k w = k (self w) w.
Proof. reflexivity. Qed.

Lemma run_assign {Y} (upd : LinearizedADMM -> LinearizedADMM) (k : unit -> M World Y)
  (w : World) :
  bind (assign upd) k w = k tt {| env := env w; self := upd (self w) |}.
Proof. reflexivity. Qed.

Lemma run_pair {X} (m : M World X) (w : World) : m w = (after m w, snd (m w)).
Proof. unfold after. destruct (m w); reflexivity. Qed.

Lemma preserves_assign (P : World -> Prop) (upd : LinearizedADMM -> LinearizedADMM) :
  (forall w, P w -> P {| env := env w; self := upd (self w) |}) ->
  preserves P (assign upd).
Proof. intros H w Hw. exact (H w Hw). Qed.

(** ** What [solve] preserves *)

Ltac preserve :=
  repeat first
    [ assumption
    | apply preserves_this
    | apply preserves_ret
    | apply preserves_answer
    | apply preserves_assign; intros; auto
    | apply preserves_bind; [|intro] ].

Lemma iteration_preserves (P : World -> Prop) cb :
  stable P -> preserves P step -> preserves P (iteration cb).
Proof.
  intros HP Hstep. pose proof HP as (Henv & Hit & Hmx & Htm & Hst).
  unfold iteration. destruct cb; preserve;
    apply observes_preserves; auto using itstat_insert_observes.
Qed.

Lemma for_itnum_preserves (P : World -> Prop) (body : M World unit) (n : nat) :
  stable P -> preserves P body -> forall i, preserves P (for_itnum n i body).
Proof.
  intros HP Hbody. pose proof HP as (Henv & Hit & Hmx & Htm & Hst).
  induction n as [|n IH]; intros i; simpl; preserve. apply IH.
Qed.

Lemma solve_preserves (P : World -> Prop) cb :
  stable P -> preserves P step -> preserves P (solve cb).
Proof.
  intros HP Hstep. pose proof HP as (Henv & Hit & Hmx & Htm & Hst).
  unfold solve. preserve.
  apply for_itnum_preserves; auto using iteration_preserves.
Qed.

Lemma reachable_from_preserves (P : World -> Prop) (w0 w : World) :
  stable P -> preserves P step -> P w0 -> reachable_from w0 w -> P w.
Proof.
  intros HP Hstep H0 Hr. pose proof HP as (Henv & Hit & Hmx & Htm & Hst).
  induction Hr as [|w Hr IH|w cb Hr IH|w xa za Hr IH|w xa Hr IH|w Hr IH|w n Hr IH].
  - exact H0.
  - apply Hstep, IH.
  - apply solve_preserves; assumption.
  - apply observes_preserves; auto using objective_observes.
  - apply observes_preserves; auto using norm_primal_residual_observes.
  - apply observes_preserves; auto using norm_dual_residual_observes.
  - apply Hmx, IH.
Qed.

Lemma invariant_stable : stable invariant.
Proof.
  unfold stable, invariant, allocated, distinct_z. simpl.
  repeat split; intros; simpl in *; intuition lia.
Qed.

Lemma setup_stable (s0 : LinearizedADMM) : stable (fun w => same_setup s0 (self w)).
Proof. unfold stable, same_setup. simpl. repeat split; intros; simpl in *; intuition. Qed.

Lemma step_preserves_setup (s0 : LinearizedADMM) :
  preserves (fun w => same_setup s0 (self w)) step.
Proof.
  intros w Hw. destruct (step_keeps_setup w) as [Hs _].
  unfold same_setup in *. intuition congruence.
Qed.

(** Construction establishes the invariant. *)
Lemma init_invariant f0 g0 C0 mu0 nu0 x0 maxiter0 verbose0 itstat e e' s :
  exists_in e x0 ->
  init f0 g0 C0 mu0 nu0 x0 maxiter0 verbose0 itstat e = (e', Ok s) ->
  invariant {| env := e'; self := s |}.
Proof.
  destruct e as [n tr]. unfold init, z_init, u_init, exists_in.
  destruct itstat, x0, (has_eval g0); unfold_py; explore;
    intros Hx H; inversion H; subst;
    unfold invariant, allocated, distinct_z; simpl in *; lia.
Qed.

Lemma reachable_invariant (w : World) : reachable w -> invariant w.
Proof.
  intros (w0 & Hc & Hr).
  apply (reachable_from_preserves invariant w0 w);
    auto using invariant_stable, step_preserves_invariant.
  destruct Hc as (f0 & g0 & C0 & mu0 & nu0 & x0 & mx & vb & it & e & Hx & Hi).
  destruct w0 as [e0 s0]. exact (init_invariant _ _ _ _ _ _ _ _ _ _ _ _ Hx Hi).
Qed.

(** C8. In every reachable state [z] and [z_old] are distinct objects, also
    in the state a call of [step] leaves; when [step] returns, [z_old] holds
    the value [z] had before the call, in an object that is not that [z]. *)
Theorem z_old_is_a_snapshot (w : World) :
  reachable w ->
  oid (z (self w)) <> oid (z_old (self w)) /\
  oid (z (self (after step w))) <> oid (z_old (self (after step w))) /\
  (forall w', step w = (w', Ok tt) ->
     oval (z_old (self w')) = oval (z (self w)) /\
     oid (z_old (self w')) <> oid (z (self w))).
Proof.
  intros Hr. pose proof (reachable_invariant w Hr) as Hinv.
  pose proof (step_preserves_invariant w Hinv) as Hinv'.
  split; [exact (proj2 Hinv)|]. split; [exact (proj2 Hinv')|].
  intros w' Hs. destruct (step_snapshots_z w w' Hs) as [Hv Hn].
  split; [exact Hv|]. destruct Hinv as [(_ & Hz & _) _]. lia.
Qed.

(** ** Runs of [solve] *)

(** The diagnostics function returns a record exactly when the
    specification defines one, and then that one. *)
Lemma itstat_insert_spec (w : World) (rec : list value) :
  snd (itstat_insert (itstat_insert_func (self w)) w) = Ok rec <->
  spec_record (self w) (itnum (self w)) (timer (self w)) (iterates (self w)) = Some rec.
Proof.
  destruct w as [[n tr] s]. simpl. unfold spec_record.
  destruct (itstat_insert_func s) as [| |fn]; simpl.
  - remember (spec_objective (f s) (g s) (oval (x s)) (oval (z s))) as so eqn:Eo.
    remember (spec_norm_primal_residual (C s) (oval (x s)) (oval (z s))) as sp eqn:Ep.
    remember (spec_norm_dual_residual (C s) (oval (z s)) (oval (z_old s))) as sd eqn:Ed.
    unfold spec_objective, spec_norm_primal_residual, spec_norm_dual_residual,
      apply_C, adjoint_C, value_at, and_then in Eo, Ep, Ed.
    unfold objective, norm_primal_residual, norm_dual_residual. unfold_py.
    explore; simpl in Eo, Ep, Ed;
      repeat match goal with
             | H : ?c = _, E : context [match ?c with _ => _ end] |- _ =>
                 rewrite H in E; simpl in E
             end;
      subst so sp sd; simpl;
      (split; intros Hv; try discriminate Hv; inversion Hv; reflexivity).
  - unfold_py. split; intros Hv; discriminate Hv.
  - unfold_py. change (spec_snapshot s (itnum s) (timer s) (iterates s)) with (snapshot s).
    simpl. destruct (fn (snapshot s)); simpl;
      split; intros Hv; try discriminate Hv; inversion Hv; reflexivity.
Qed.

Lemma spec_record_setup (s s' : LinearizedADMM) (i : Z) (t : Timer) (v : Iterates) :
  same_setup s s' -> maxiter s' = maxiter s ->
  spec_record s' i t v = spec_record s i t v.
Proof.
  intros (Hf & Hg & HC & Hmu & Hnu & _ & Hi) Hm.
  unfold spec_record, spec_snapshot. rewrite Hf, Hg, HC, Hmu, Hnu, Hi, Hm. reflexivity.
Qed.

Lemma spec_update_setup (s s' : LinearizedADMM) (v : Iterates) :
  same_setup s s' -> spec_update s' v = spec_update s v.
Proof.
  intros (Hf & Hg & HC & Hmu & Hnu & _ & _).
  unfold spec_update. rewrite Hf, Hg, HC, Hmu, Hnu. reflexivity.
Qed.

Lemma spec_updates_setup (s s' : LinearizedADMM) (n : nat) :
  same_setup s s' -> forall v, spec_updates n s' v = spec_updates n s v.
Proof.
  intros Hs. induction n as [|k IH]; intros v; simpl; [reflexivity|].
  rewrite (spec_update_setup s s' v Hs). unfold and_then.
  destruct (spec_update s v); [apply IH | reflexivity].
Qed.

Lemma spec_log_setup (s s' : LinearizedADMM) (n : nat) (paused : bool) :
  same_setup s s' -> maxiter s' = maxiter s ->
  forall i t v, spec_log n paused s' i t v = spec_log n paused s i t v.
Proof.
  intros Hs Hm. induction n as [|k IH]; intros i t v; simpl; [reflexivity|].
  rewrite (spec_update_setup s s' v Hs). unfold and_then.
  destruct (spec_update s v) as [d|]; [|reflexivity].
  rewrite (spec_record_setup s s') by assumption.
  rewrite IH. reflexivity.
Qed.

Lemma spec_log_length (s : LinearizedADMM) (n : nat) (paused : bool) :
  forall i t v recs, spec_log n paused s i t v = Some recs -> List.length recs = n.
Proof.
  induction n as [|k IH]; simpl; intros i t v recs H.
  - injection H as <-. reflexivity.
  - unfold and_then in H.
    destruct (spec_update s v) as [d|]; [|discriminate].
    destruct (spec_record s i t (upd_next d)) as [r|]; [|discriminate].
    destruct (spec_log k paused s _ _ _) as [l|] eqn:E; [|discriminate].
    injection H as <-. simpl. rewrite (IH _ _ _ _ E). reflexivity.
Qed.

Lemma spec_updates_add (s : LinearizedADMM) (n1 n2 : nat) :
  forall v v1,
    spec_updates n1 s v = Some v1 ->
    spec_updates (n1 + n2) s v = spec_updates n2 s v1.
Proof.
  induction n1 as [|k IH]; simpl; intros v v1 H.
  - injection H as ->. reflexivity.
  - unfold and_then in *. destruct (spec_update s v) as [d|]; [|discriminate].
    exact (IH _ _ H).
Qed.

(** One pass of the loop body where the specification defines the update
    and the record: it returns, the iterates are updated, the record is
    appended, and the counter and the setup are as before. *)
Lemma iteration_runs cb (w : World) (d : Update) (rec : list value) :
  spec_update (self w) (iterates (self w)) = Some d ->
  spec_record (self w) (itnum (self w)) (timer (self w)) (upd_next d) = Some rec ->
  total_callback cb ->
  exists w',
    iteration cb w = (w', Ok tt) /\
    iterates (self w') = upd_next d /\
    same_setup (self w) (self w') /\
    itnum (self w') = itnum (self w) /\
    maxiter (self w') = maxiter (self w) /\
    timer (self w') = (if is_given cb then start (stop (timer (self w)))
                       else timer (self w)) /\
    iterations (itstat_object (self w'))
    = iterations (itstat_object (self w)) ++ [rec] /\
    updates_of (calls (env w')) = S (updates_of (calls (env w))).
Proof.
  intros Hd Hrec Hcb. unfold spec_update, and_then in Hd.
  destruct (f (self w)) as [F|] eqn:HF; [|discriminate].
  destruct (step_run w F d HF Hd) as (w1 & Hstep & Hit & Hupd1).
  destruct (step_keeps_setup w) as [Hsetup (Hnum & Hmax & Htm & Hlog)].
  unfold after in Hsetup, Hnum, Hmax, Htm, Hlog. rewrite Hstep in *.
  simpl fst in Hsetup, Hnum, Hmax, Htm, Hlog.
  rewrite <- (spec_record_setup (self w) (self w1)), <- Hnum, <- Htm, <- Hit in Hrec
    by assumption.
  apply itstat_insert_spec in Hrec.
  destruct (itstat_insert_observes (itstat_insert_func (self w1)) w1)
    as (Hself & _ & Hupd).
  pose proof (run_pair (itstat_insert (itstat_insert_func (self w1))) w1) as Hins.
  rewrite Hrec in Hins.
  remember (after (itstat_insert (itstat_insert_func (self w1))) w1) as w2 eqn:Hw2.
  destruct w2 as [e2 s2]. simpl in Hself, Hupd. subst s2.
  unfold iteration.
  rewrite (run_bind_ok _ _ _ _ _ Hstep), run_this.
  rewrite (run_bind_ok _ _ _ _ _ Hins), run_this, run_assign. simpl.
  assert (Hu : updates_of (calls e2) = S (updates_of (calls (env w))))
    by (rewrite Hupd; exact Hupd1).
  destruct Hsetup as (Ef & Eg & EC & Emu & Enu & Evb & Eif).
  destruct cb as [cb|]; simpl in Hcb.
  - rewrite run_this, run_assign, run_this. simpl.
    unfold bind at 1. rewrite Hcb. simpl.
    eexists. split; [reflexivity|]. simpl.
    rewrite Htm, Hlog. unfold same_setup. simpl. intuition.
  - eexists. split; [reflexivity|]. simpl.
    rewrite Hlog. unfold same_setup. simpl. intuition.
Qed.

(** The loop of [solve] over [n] values of the counter starting at [i]. *)
Lemma for_itnum_runs cb (n : nat) :
  forall (i : Z) (w : World) (recs : list (list value)),
    spec_log n (is_given cb) (self w) i (timer (self w)) (iterates (self w))
    = Some recs ->
    total_callback cb ->
    exists w',
      for_itnum n i (iteration cb) w = (w', Ok tt) /\
      spec_updates n (self w) (iterates (self w)) = Some (iterates (self w')) /\
      same_setup (self w) (self w') /\
      maxiter (self w') = maxiter (self w) /\
      itnum (self w') = match n with
                        | O => itnum (self w)
                        | S k => (i + Z.of_nat k)%Z
                        end /\
      iterations (itstat_object (self w'))
      = iterations (itstat_object (self w)) ++ recs /\
      updates_of (calls (env w')) = updates_of (calls (env w)) + n.
Proof.
  induction n as [|k IH]; intros i w recs Hrecs Hcb.
  - simpl in Hrecs. injection Hrecs as <-.
    exists w. simpl. rewrite app_nil_r.
    repeat split; try reflexivity; lia.
  - simpl in Hrecs. unfold and_then in Hrecs.
    destruct (spec_update (self w) (iterates (self w))) as [d|] eqn:Hd; [|discriminate].
    destruct (spec_record (self w) i (timer (self w)) (upd_next d)) as [rec|] eqn:Hrec;
      [|discriminate].
    destruct (spec_log k _ _ _ _ _) as [l|] eqn:Hl; [|discriminate].
    injection Hrecs as <-.
    set (w0 := {| env := env w; self := set_itnum i (self w) |}).
    assert (Hsetup0 : same_setup (self w) (self w0)) by (repeat split).
    rewrite <- (spec_update_setup (self w) (self w0) _ Hsetup0) in Hd.
    rewrite <- (spec_record_setup (self w) (self w0)) in Hrec by (simpl; auto).
    destruct (iteration_runs cb w0 d rec Hd Hrec Hcb)
      as (w1 & Hrun & Hit & Hsetup & Hnum & Hmax & Htm & Hlog & Hupd).
    assert (Hsetup1 : same_setup (self w) (self w1)).
    { destruct Hsetup as (? & ? & ? & ? & ? & ? & ?). simpl in *.
      unfold same_setup. intuition. }
    simpl in Hnum, Hmax, Htm, Hlog, Hupd.
    rewrite <- (spec_log_setup (self w) (self w1)), <- Htm, <- Hit in Hl
      by (simpl in *; congruence).
    destruct (IH (i + 1)%Z w1 l Hl Hcb)
      as (w' & Hrun' & Hsteps & Hsetup' & Hmax' & Hnum' & Hlog' & Hupd').
    rewrite (spec_updates_setup (self w) (self w1) _ Hsetup1), Hit in Hsteps.
    rewrite (spec_update_setup (self w) (self w0) _ Hsetup0) in Hd.
    exists w'.
    simpl for_itnum. rewrite run_assign. fold w0.
    rewrite (run_bind_ok _ _ _ _ _ Hrun). rewrite Hrun'.
    split; [reflexivity|].
    split; [simpl; unfold and_then; rewrite Hd; exact Hsteps|].
    split.
    { destruct Hsetup1 as (? & ? & ? & ? & ? & ? & ?).
      destruct Hsetup' as (? & ? & ? & ? & ? & ? & ?).
      unfold same_setup. intuition congruence. }
    split; [congruence|].
    split.
    { rewrite Hnum'. destruct k; [rewrite Hnum; lia | lia]. }
    split.
    { rewrite Hlog', Hlog, <- app_assoc. reflexivity. }
    rewrite Hupd', Hupd. lia.
Qed.

(** [solve] where the specification defines the [maxiter] updates and
    their records: it returns the final [x], the iterates have been
    updated [maxiter] times (no time when [maxiter] is not positive), the
    records have been appended, and the counter has advanced by
    [max 1 maxiter]. *)
Lemma solve_runs cb (w : World) (recs : list (list value)) :
  spec_log (Z.to_nat (maxiter (self w))) (is_given cb) (self w) (itnum (self w))
    (start (timer (self w))) (iterates (self w)) = Some recs ->
  total_callback cb ->
  exists w',
    solve cb w = (w', Ok (x (self w'))) /\
    spec_updates (Z.to_nat (maxiter (self w))) (self w) (iterates (self w))
    = Some (iterates (self w')) /\
    same_setup (self w) (self w') /\
    maxiter (self w') = maxiter (self w) /\
    itnum (self w') = (itnum (self w) + Z.max 1 (maxiter (self w)))%Z /\
    iterations (itstat_object (self w'))
    = iterations (itstat_object (self w)) ++ recs /\
    updates_of (calls (env w'))
    = updates_of (calls (env w)) + Z.to_nat (maxiter (self w)).
Proof.
  intros Hrecs Hcb.
  set (w0 := {| env := env w; self := set_timer (start (timer (self w))) (self w) |}).
  assert (Hsetup0 : same_setup (self w) (self w0)) by (repeat split).
  rewrite <- (spec_log_setup (self w) (self w0)) in Hrecs by (simpl; auto).
  destruct (for_itnum_runs cb (Z.to_nat (maxiter (self w))) (itnum (self w)) w0 recs
              Hrecs Hcb)
    as (w1 & Hrun & Hsteps & Hsetup & Hmax & Hnum & Hlog & Hupd).
  rewrite (spec_updates_setup (self w) (self w0) _ Hsetup0) in Hsteps.
  simpl in Hsteps, Hmax, Hnum, Hlog, Hupd.
  exists {| env := env w1;
            self := set_itnum (itnum (self w1) + 1)
                      (set_timer (stop (timer (self w1))) (self w1)) |}.
  unfold solve. rewrite run_this, run_assign, run_this. fold w0. simpl self.
  replace (itnum (set_timer (start (timer (self w))) (self w))
           + maxiter (set_timer (start (timer (self w))) (self w))
           - itnum (set_timer (start (timer (self w))) (self w)))%Z
    with (maxiter (self w)) by (simpl; lia).
  change (itnum (set_timer (start (timer (self w))) (self w))) with (itnum (self w)).
  rewrite (run_bind_ok _ _ _ _ _ Hrun).
  split; [reflexivity|]. split; [exact Hsteps|].
  split; [destruct Hsetup as (? & ? & ? & ? & ? & ? & ?); repeat split; assumption|].
  split; [exact Hmax|].
  split.
  { simpl. rewrite Hnum. destruct (Z.to_nat (maxiter (self w))) eqn:E; lia. }
  split; [exact Hlog | exact Hupd].
Qed.

(** C6. For a budget [maxiter >= 1], when no collaborator fails on the way
    (the specification defines the [maxiter] updates and their records),
    one call of [solve] returns the final [x]: the counter is the one
    before plus [maxiter], the iterates have been updated exactly
    [maxiter] times ([g.prox] has been called that many times), and the
    [maxiter] records appended to the diagnostics are, in order, those of
    the states right after each update, numbered from the counter before. *)
Theorem solve_counts_iterations cb (w : World) (recs : list (list value)) :
  (1 <= maxiter (self w))%Z ->
  total_callback cb ->
  spec_log (Z.to_nat (maxiter (self w))) (is_given cb) (self w) (itnum (self w))
    (start (timer (self w))) (iterates (self w)) = Some recs ->
  exists w',
    solve cb w = (w', Ok (x (self w'))) /\
    itnum (self w') = (itnum (self w) + maxiter (self w))%Z /\
    spec_updates (Z.to_nat (maxiter (self w))) (self w) (iterates (self w))
    = Some (iterates (self w')) /\
    updates_of (calls (env w'))
    = updates_of (calls (env w)) + Z.to_nat (maxiter (self w)) /\
    iterations (itstat_object (self w'))
    = iterations (itstat_object (self w)) ++ recs /\
    Z.of_nat (List.length recs) = maxiter (self w).
Proof.
  intros Hm Hcb Hrecs.
  destruct (solve_runs cb w recs Hrecs Hcb)
    as (w' & Hrun & Hsteps & _ & _ & Hnum & Hlog & Hupd).
  exists w'. repeat split; try assumption; [lia|].
  rewrite (spec_log_length _ _ _ _ _ _ _ Hrecs). lia.
Qed.

(** ** What a call that returned has done *)

(** When [step] returns it has performed the update of the specification. *)
Lemma step_inv (w w' : World) :
  step w = (w', Ok tt) ->
  exists d,
    spec_update (self w) (iterates (self w)) = Some d /\
    iterates (self w') = upd_next d.
Proof.
  destruct w as [[n tr] s]. unfold step. unfold_py.
  explore; intros Hv; try discriminate Hv; inversion Hv; subst;
    unfold spec_update, spec_step, apply_C, adjoint_C, prox_at, and_then;
    simpl; use_outcomes; eexists; split; reflexivity.
Qed.

Lemma observes_keeps {X} (Q : LinearizedADMM -> Prop) (m : M World X) :
  observes m -> preserves (fun w => Q (self w)) m.
Proof. intros Hm w Hw. destruct (Hm w) as (Hs & _). rewrite Hs. exact Hw. Qed.

Lemma iteration_inv cb (w w' : World) :
  iteration cb w = (w', Ok tt) ->
  exists d,
    spec_update (self w) (iterates (self w)) = Some d /\
    iterates (self w') = upd_next d /\
    same_setup (self w) (self w') /\
    itnum (self w') = itnum (self w) /\
    maxiter (self w') = maxiter (self w).
Proof.
  unfold iteration. intros H.
  destruct (step w) as [w1 [[]|e]] eqn:Hstep.
  2:{ rewrite (run_bind_raise _ _ _ _ _ Hstep) in H. discriminate H. }
  rewrite (run_bind_ok _ _ _ _ _ Hstep) in H.
  destruct (step_inv w w1 Hstep) as (d & Hd & Hit).
  destruct (step_keeps_setup w) as [Hsetup (Hnum & Hmax & _)].
  unfold after in Hsetup, Hnum, Hmax. rewrite Hstep in *. simpl fst in *.
  assert (Hrest : as_left (self w1) w').
  { match type of H with
    | ?m w1 = _ =>
        assert (Hp : preserves (as_left (self w1)) m);
        [|specialize (Hp w1); unfold after in Hp; rewrite H in Hp; apply Hp;
          unfold as_left, same_setup; intuition]
    end.
    assert (Ha : forall upd,
               (forall s, iterates (upd s) = iterates s /\ same_setup s (upd s) /\
                          itnum (upd s) = itnum s /\ maxiter (upd s) = maxiter s) ->
               preserves (as_left (self w1)) (assign upd)).
    { intros upd Hu w0 (H1 & H2 & H3 & H4). unfold after, assign, as_left. simpl.
      destruct (Hu (self w0)) as (U1 & U2 & U3 & U4).
      unfold same_setup in *. intuition congruence. }
    destruct cb;
      repeat first
        [ apply preserves_this
        | apply preserves_ret
        | apply preserves_answer
        | apply (observes_keeps (fun s => iterates s = iterates (self w1) /\
                                          same_setup (self w1) s /\
                                          itnum s = itnum (self w1) /\
                                          maxiter s = maxiter (self w1)));
          apply itstat_insert_observes
        | apply Ha; intros s0; unfold same_setup; simpl; intuition
        | apply preserves_bind; [|intro] ]. }
  destruct Hrest as (R1 & R2 & R3 & R4).
  exists d. split; [exact Hd|]. split; [congruence|].
  split; [unfold same_setup in *; intuition congruence|]. split; congruence.
Qed.

Lemma for_itnum_inv cb (n : nat) :
  forall (i : Z) (w w' : World),
    for_itnum n i (iteration cb) w = (w', Ok tt) ->
    spec_updates n (self w) (iterates (self w)) = Some (iterates (self w')) /\
    same_setup (self w) (self w') /\
    maxiter (self w') = maxiter (self w) /\
    itnum (self w') = match n with
                      | O => itnum (self w)
                      | S k => (i + Z.of_nat k)%Z
                      end.
Proof.
  induction n as [|k IH]; intros i w w' H.
  - simpl in H. injection H as <-. repeat split; reflexivity.
  - simpl for_itnum in H. rewrite run_assign in H.
    set (w0 := {| env := env w; self := set_itnum i (self w) |}) in *.
    assert (Hsetup0 : same_setup (self w) (self w0)) by (repeat split).
    destruct (iteration cb w0) as [w1 [[]|e]] eqn:Hrun.
    2:{ rewrite (run_bind_raise _ _ _ _ _ Hrun) in H. discriminate H. }
    rewrite (run_bind_ok _ _ _ _ _ Hrun) in H.
    destruct (iteration_inv cb w0 w1 Hrun) as (d & Hd & Hit & Hsetup & Hnum & Hmax).
    destruct (IH (i + 1)%Z w1 w' H) as (Hsteps & Hsetup' & Hmax' & Hnum').
    assert (Hsetup1 : same_setup (self w) (self w1)).
    { destruct Hsetup as (? & ? & ? & ? & ? & ? & ?). simpl in *.
      unfold same_setup. intuition. }
    rewrite (spec_update_setup (self w) (self w0) _ Hsetup0) in Hd.
    change (iterates (self w0)) with (iterates (self w)) in Hd.
    rewrite (spec_updates_setup (self w) (self w1) _ Hsetup1), Hit in Hsteps.
    simpl in Hnum, Hmax.
    split; [simpl; unfold and_then; rewrite Hd; exact Hsteps|].
    split.
    { destruct Hsetup1 as (? & ? & ? & ? & ? & ? & ?).
      destruct Hsetup' as (? & ? & ? & ? & ? & ? & ?).
      unfold same_setup. intuition congruence. }
    split; [congruence|].
    rewrite Hnum'. destruct k; [rewrite Hnum; lia | lia].
Qed.

(** When [solve] returns, what it returns is the final [x], the iterates
    have been updated [maxiter] times and the counter has advanced by
    [max 1 maxiter]. *)
Lemma solve_inv cb (w w' : World) (r : obj) :
  solve cb w = (w', Ok r) ->
  r = x (self w') /\
  spec_updates (Z.to_nat (maxiter (self w))) (self w) (iterates (self w))
  = Some (iterates (self w')) /\
  same_setup (self w) (self w') /\
  itnum (self w') = (itnum (self w) + Z.max 1 (maxiter (self w)))%Z.
Proof.
  unfold solve. rewrite run_this, run_assign, run_this.
  set (w0 := {| env := env w; self := set_timer (start (timer (self w))) (self w) |}).
  assert (Hsetup0 : same_setup (self w) (self w0)) by (repeat split).
  replace (itnum (self w0) + maxiter (self w0) - itnum (self w0))%Z
    with (maxiter (self w)) by (simpl; lia).
  intros H.
  destruct (for_itnum (Z.to_nat (maxiter (self w))) (itnum (self w0)) (iteration cb) w0)
    as [w1 [[]|e]] eqn:Hrun.
  2:{ rewrite (run_bind_raise _ _ _ _ _ Hrun) in H. discriminate H. }
  rewrite (run_bind_ok _ _ _ _ _ Hrun) in H.
  destruct (for_itnum_inv cb _ _ _ _ Hrun) as (Hsteps & Hsetup & Hmax & Hnum).
  rewrite (spec_updates_setup (self w) (self w0) _ Hsetup0) in Hsteps.
  unfold_py. simpl in H. injection H as <- <-. simpl in *.
  split; [reflexivity|]. split; [exact Hsteps|].
  split; [destruct Hsetup as (? & ? & ? & ? & ? & ? & ?); repeat split; assumption|].
  rewrite Hnum. destruct (Z.to_nat (maxiter (self w))) eqn:E; lia.
Qed.

(** ** Solvers whose collaborators always answer *)

Lemma well_configured_setup (s s' : LinearizedADMM) :
  same_setup s s' -> well_configured s -> well_configured s'.
Proof.
  unfold same_setup, well_configured, total_insert_func.
  intros (Hf & Hg & HC & Hmu & Hnu & _ & Hi). rewrite Hf, Hg, HC, Hmu, Hnu, Hi. tauto.
Qed.

Lemma total_forward (L : LinearOperator) (a : array) (msg : string) :
  total_operator L -> forward L a = Fails msg -> False.
Proof. intros [H _] E. destruct (H a) as [r Hr]. congruence. Qed.

Lemma total_adj (L : LinearOperator) (a : array) (msg : string) :
  total_operator L -> adj L a = Fails msg -> False.
Proof. intros [_ H] E. destruct (H a) as [r Hr]. congruence. Qed.

Lemma total_prox_answers (F : Functional) a t a0 (msg : string) :
  total_prox F -> prox F a t a0 = Fails msg -> False.
Proof. intros H E. destruct (H a t a0) as [r Hr]. congruence. Qed.

Lemma total_eval_answers (F : Functional) a (msg : string) :
  total_eval F -> eval F a = Fails msg -> False.
Proof. intros H E. destruct (H a) as [r Hr]. congruence. Qed.

Ltac answered :=
  repeat match goal with
         | |- context [match ?c with Gives _ => _ | Fails _ => _ end] =>
             destruct c eqn:?; simpl
         end;
  try (eexists; reflexivity);
  exfalso;
  eauto using total_forward, total_adj, total_prox_answers, total_eval_answers.

(** With total collaborators the update of the specification is defined. *)
Lemma spec_update_defined (s : LinearizedADMM) (v : Iterates) :
  well_configured s -> exists d, spec_update s v = Some d.
Proof.
  intros ((F & HF & HpF) & HpG & HC & (q & Hq) & _).
  unfold spec_update, spec_step, apply_C, adjoint_C, prox_at, and_then.
  rewrite HF, Hq. answered.
Qed.

(** With total collaborators the record of the specification is defined. *)
Lemma spec_record_defined (s : LinearizedADMM) (i : Z) (t : Timer) (v : Iterates) :
  well_configured s -> exists rec, spec_record s i t v = Some rec.
Proof.
  intros (_ & _ & HC & _ & Hi). unfold total_insert_func in Hi. unfold spec_record.
  destruct (itstat_insert_func s) as [| |fn].
  - destruct Hi as [Hf Hg].
    unfold spec_objective, spec_norm_primal_residual, spec_norm_dual_residual,
      apply_C, adjoint_C, value_at, and_then.
    destruct (f s) as [F|] eqn:HF; [specialize (Hf F eq_refl)|]; answered.
  - contradiction.
  - destruct (Hi (spec_snapshot s i t v)) as [rec Hrec]. rewrite Hrec.
    eexists; reflexivity.
Qed.

Lemma spec_log_defined (s : LinearizedADMM) (n : nat) (paused : bool) :
  well_configured s -> forall i t v, exists recs, spec_log n paused s i t v = Some recs.
Proof.
  intros Hwc. induction n as [|k IH]; intros i t v; simpl.
  - eexists; reflexivity.
  - destruct (spec_update_defined s v Hwc) as [d Hd].
    destruct (spec_record_defined s i t (upd_next d) Hwc) as [rec Hrec].
    destruct (IH (i + 1)%Z (if paused then start (stop t) else t) (upd_next d))
      as [l Hl].
    unfold and_then. rewrite Hd, Hrec, Hl. eexists; reflexivity.
Qed.

(** C7.  Whenever [solve] with budget [m1], then [solve] with budget [m2],
    and a single [solve] with budget [m1 + m2] from the same state all
    return, the two runs leave the same values of [x], [z], [z_old], [u]
    and the same counter, and return the same value; and all three do
    return on a solver whose collaborators answer on every input. *)
Theorem solve_resumes (w : World) (m1 m2 : Z) cb1 cb2 cb :
  (1 <= m1)%Z -> (1 <= m2)%Z ->
  (forall w1 w2 w12 r1 r2 r12,
     solve cb1 (with_maxiter m1 w) = (w1, Ok r1) ->
     solve cb2 (with_maxiter m2 w1) = (w2, Ok r2) ->
     solve cb (with_maxiter (m1 + m2) w) = (w12, Ok r12) ->
     iterates (self w2) = iterates (self w12) /\
     itnum (self w2) = itnum (self w12) /\
     oval r2 = oval r12) /\
  (well_configured (self w) ->
   total_callback cb1 -> total_callback cb2 -> total_callback cb ->
   exists w1 w2 w12,
     solve cb1 (with_maxiter m1 w) = (w1, Ok (x (self w1))) /\
     solve cb2 (with_maxiter m2 w1) = (w2, Ok (x (self w2))) /\
     solve cb (with_maxiter (m1 + m2) w) = (w12, Ok (x (self w12)))).
Proof.
  intros H1 H2. split.
  - intros w1 w2 w12 r1 r2 r12 Hrun1 Hrun2 Hrun12.
    destruct (solve_inv _ _ _ _ Hrun1) as (_ & Hs1 & Hsetup1 & Hn1).
    destruct (solve_inv _ _ _ _ Hrun2) as (-> & Hs2 & _ & Hn2).
    destruct (solve_inv _ _ _ _ Hrun12) as (-> & Hs12 & _ & Hn12).
    assert (Ha : same_setup (self w) (self (with_maxiter m1 w))) by (repeat split).
    assert (Hb : same_setup (self w1) (self (with_maxiter m2 w1))) by (repeat split).
    assert (Hc : same_setup (self w) (self (with_maxiter (m1 + m2) w)))
      by (repeat split).
    assert (Hd : same_setup (self w) (self w1)).
    { destruct Hsetup1 as (? & ? & ? & ? & ? & ? & ?). simpl in *.
      unfold same_setup. intuition. }
    rewrite (spec_updates_setup _ _ _ Ha) in Hs1.
    rewrite (spec_updates_setup _ _ _ Hb), (spec_updates_setup _ _ _ Hd) in Hs2.
    rewrite (spec_updates_setup _ _ _ Hc) in Hs12.
    unfold with_maxiter in *. simpl maxiter in *. simpl itnum in *.
    change (iterates (self {| env := env w; self := set_maxiter m1 (self w) |}))
      with (iterates (self w)) in Hs1.
    change (iterates (self {| env := env w1; self := set_maxiter m2 (self w1) |}))
      with (iterates (self w1)) in Hs2.
    change (iterates (self {| env := env w; self := set_maxiter (m1 + m2) (self w) |}))
      with (iterates (self w)) in Hs12.
    replace (Z.to_nat (m1 + m2)) with (Z.to_nat m1 + Z.to_nat m2) in Hs12 by lia.
    rewrite (spec_updates_add _ _ _ _ _ Hs1), Hs2 in Hs12.
    assert (Hit : iterates (self w2) = iterates (self w12)) by congruence.
    split; [exact Hit|]. split; [lia|].
    unfold iterates in Hit. congruence.
  - intros Hwc Hcb1 Hcb2 Hcb.
    assert (Hrun : forall cb' m w0,
               well_configured (self w0) -> total_callback cb' ->
               exists w',
                 solve cb' (with_maxiter m w0) = (w', Ok (x (self w'))) /\
                 same_setup (self w0) (self w')).
    { intros cb' m w0 Hwc0 Hcb'.
      assert (Hs : same_setup (self w0) (self (with_maxiter m w0))) by (repeat split).
      pose proof (well_configured_setup _ _ Hs Hwc0) as Hwc'.
      destruct (spec_log_defined (self (with_maxiter m w0))
                  (Z.to_nat (maxiter (self (with_maxiter m w0)))) (is_given cb') Hwc'
                  (itnum (self (with_maxiter m w0)))
                  (start (timer (self (with_maxiter m w0))))
                  (iterates (self (with_maxiter m w0)))) as [recs Hrecs].
      destruct (solve_runs cb' _ recs Hrecs Hcb')
        as (w' & Hsolve & _ & Hsetup & _).
      exists w'. split; [exact Hsolve|].
      destruct Hsetup as (? & ? & ? & ? & ? & ? & ?). simpl in *.
      unfold same_setup. intuition. }
    destruct (Hrun cb1 m1 w Hwc Hcb1) as (w1 & Hrun1 & Hsetup1).
    pose proof (well_configured_setup _ _ Hsetup1 Hwc) as Hwc1.
    destruct (Hrun cb2 m2 w1 Hwc1 Hcb2) as (w2 & Hrun2 & _).
    destruct (Hrun cb (m1 + m2)%Z w Hwc Hcb) as (w12 & Hrun12 & _).
    exists w1, w2, w12. repeat split; assumption.
Qed.

(** ** The default diagnostics when [g] cannot be evaluated *)

Lemma init_selects f0 g0 C0 mu0 nu0 x0 maxiter0 verbose0 e e' s :
  init f0 g0 C0 mu0 nu0 x0 maxiter0 verbose0 ItNone e = (e', Ok s) ->
  itstat_insert_func s
  = if has_eval g0 then itstat_func_objective else itstat_func_no_objective.
Proof.
  destruct e as [n tr]. unfold init, z_init, u_init.
  destruct x0, (has_eval g0); unfold_py; explore; intros H; inversion H; reflexivity.
Qed.

(** With the function of lines 167-173 one pass of the loop body raises:
    in [step], or else on reading [obj.i], with the state [step] left. *)
Lemma iteration_without_objective cb (w : World) :
  itstat_insert_func (self w) = itstat_func_no_objective ->
  iteration cb w
  = (after step w,
     match snd (step w) with
     | Ok _ => Raise (AttributeError "'LinearizedADMM' object has no attribute 'i'")
     | Raise e => Raise e
     end).
Proof.
  intros Hk. destruct (step_keeps_setup w) as [(_ & _ & _ & _ & _ & _ & Hi) _].
  rewrite Hk in Hi. unfold after in *. unfold iteration. unfold bind at 1.
  destruct (step w) as [w1 [[]|e]]; simpl in *; [|reflexivity].
  rewrite run_this, Hi. reflexivity.
Qed.

Lemma solve_without_objective cb (w : World) :
  itstat_insert_func (self w) = itstat_func_no_objective ->
  (1 <= maxiter (self w))%Z ->
  solve cb w
  = (after step {| env := env w; self := set_timer (start (timer (self w))) (self w) |},
     match snd (step {| env := env w;
                        self := set_timer (start (timer (self w))) (self w) |}) with
     | Ok _ => Raise (AttributeError "'LinearizedADMM' object has no attribute 'i'")
     | Raise e => Raise e
     end).
Proof.
  intros Hk Hm.
  set (w0 := {| env := env w; self := set_timer (start (timer (self w))) (self w) |}).
  assert (Hit : exists e,
             iteration cb w0 = (after step w0, Raise e) /\
             Raise e = match snd (step w0) with
                       | Ok _ => Raise (AttributeError
                                          "'LinearizedADMM' object has no attribute 'i'")
                       | Raise e' => @Raise obj e'
                       end).
  { rewrite (iteration_without_objective cb w0 Hk).
    destruct (snd (step w0)); eexists; split; reflexivity. }
  destruct Hit as (e & Hit & He). rewrite <- He.
  unfold solve. rewrite run_this, run_assign, run_this. fold w0.
  replace (itnum (self w0) + maxiter (self w0) - itnum (self w0))%Z
    with (maxiter (self w)) by (simpl; lia).
  destruct (Z.to_nat (maxiter (self w))) as [|k] eqn:E; [lia|].
  apply run_bind_raise. simpl for_itnum. rewrite run_assign.
  apply run_bind_raise. exact Hit.
Qed.

(** C10. A solver constructed with [itstat = None] and a [g] that cannot be
    evaluated is given the function of lines 167-173, which reads [obj.i]
    and raises; so every later call of [solve] with a budget of at least 1
    raises in its first iteration, and when [step] returns there, it raises
    the attribute error with the iterates updated once, no record inserted
    and the counter where it was. *)
Theorem default_diagnostics_read_a_missing_attribute
  f0 g0 C0 mu0 nu0 x0 maxiter0 verbose0 e e' s (w : World) cb :
  has_eval g0 = false ->
  init f0 g0 C0 mu0 nu0 x0 maxiter0 verbose0 ItNone e = (e', Ok s) ->
  reachable_from {| env := e'; self := s |} w ->
  (1 <= maxiter (self w))%Z ->
  itstat_insert_func (self w) = itstat_func_no_objective /\
  itstat_insert (itstat_insert_func (self w)) w
  = (w, Raise (AttributeError "'LinearizedADMM' object has no attribute 'i'")) /\
  (exists w' err, solve cb w = (w', Raise err)) /\
  (forall F d,
     f (self w) = Some F ->
     spec_step F (g (self w)) (C (self w)) (mu (self w)) (nu (self w))
       (iterates (self w)) = Some d ->
     exists w',
       solve cb w
       = (w', Raise (AttributeError "'LinearizedADMM' object has no attribute 'i'")) /\
       iterates (self w') = upd_next d /\
       itstat_object (self w') = itstat_object (self w) /\
       itnum (self w') = itnum (self w)).
Proof.
  intros Hg Hinit Hr Hm.
  assert (Hk : itstat_insert_func (self w) = itstat_func_no_objective).
  { pose proof (init_selects _ _ _ _ _ _ _ _ _ _ _ Hinit) as Hsel. rewrite Hg in Hsel.
    assert (Hs : same_setup s (self w)).
    { apply (reachable_from_preserves (fun w => same_setup s (self w))
               {| env := e'; self := s |} w
               (setup_stable s) (step_preserves_setup s)); [|exact Hr].
      repeat split. }
    destruct Hs as (_ & _ & _ & _ & _ & _ & Hi). congruence. }
  split; [exact Hk|]. split; [rewrite Hk; reflexivity|].
  rewrite (solve_without_objective cb w Hk Hm).
  split.
  { destruct (snd (step _)); eexists; eexists; reflexivity. }
  intros F d HF Hd.
  set (w0 := {| env := env w; self := set_timer (start (timer (self w))) (self w) |}).
  destruct (step_run w0 F d HF Hd) as (w1 & Hstep & Hit & _).
  destruct (step_keeps_setup w0) as [_ (Hnum & _ & _ & Hlog)].
  unfold after in *. rewrite Hstep in *. simpl fst in *. simpl snd.
  exists w1. split; [reflexivity|]. split; [exact Hit|]. split; assumption.
Qed.

(** ** Construction *)

(** C3, as amended.  [__init__] checks neither [mu], [nu] nor the shape of
    [x0], and raises no error of its own for them: whatever [mu] and [nu],
    it returns a solver exactly when [itstat] is [None] or a pair and the
    call [C(x0)] returns, and the solver holds the arguments as given, with
    [z = C(x0)], [z_old] equal to [z] and [u] zero. *)
Theorem init_validates_nothing f0 g0 C0 mu0 nu0 x0 maxiter0 verbose0 itstat e :
  (forall msg,
     snd (init f0 g0 C0 mu0 nu0 x0 maxiter0 verbose0 itstat e) <> Raise (ValueError msg)) /\
  ((exists e' s, init f0 g0 C0 mu0 nu0 x0 maxiter0 verbose0 itstat e = (e', Ok s)) <->
   (itstat <> ItEmpty /\ exists r, forward C0 (initial_point C0 x0) = Gives r)) /\
  (forall e' s,
     init f0 g0 C0 mu0 nu0 x0 maxiter0 verbose0 itstat e = (e', Ok s) ->
     mu s = mu0 /\ nu s = nu0 /\ maxiter s = maxiter0 /\
     f s = f0 /\ g s = g0 /\ C s = C0 /\ itnum s = 0%Z /\
     oval (x s) = initial_point C0 x0 /\
     apply_C C0 (initial_point C0 x0) = Some (oval (z s)) /\
     oval (z_old s) = oval (z s) /\
     oval (u s) = zeros (output_shape C0) (output_dtype C0)).
Proof.
  destruct e as [n tr]. unfold init, z_init, u_init, initial_point, apply_C.
  destruct itstat, x0, (has_eval g0); unfold_py; explore; simpl;
    (split; [intros mm Hv; discriminate Hv|]);
    (split;
     [split;
      [intros (ee & ss & Hv);
       first [discriminate Hv | split; [discriminate|eauto]]
      |intros (Hne & rr & Hrr); try congruence; eauto]
     |intros ee ss Hv; try discriminate Hv; inversion Hv; subst; simpl;
      repeat split; reflexivity]).
Qed.

(** ** [objective] *)

(** C4. [objective] raises its value error exactly when one of [x], [z] is
    given without the other, and then at once: the state, with the record
    of collaborator calls, is unchanged.  Otherwise it returns [f(x) + g(z)]
    at the arguments, or at the current iterate when none is given, when
    both evaluations answer, and only then. *)
Theorem objective_both_or_neither (w : World) (xa za : option obj) :
  ((exists msg, snd (objective xa za w) = Raise (ValueError msg)) <->
   exactly_one xa za = true) /\
  (exactly_one xa za = true ->
   objective xa za w
   = (w, Raise (ValueError "Both or neither of x and z must be supplied"))) /\
  (exactly_one xa za = false ->
   forall v,
     snd (objective xa za w) = Ok v <->
     spec_objective (f (self w)) (g (self w))
       (oval (fst (objective_point (self w) xa za)))
       (oval (snd (objective_point (self w) xa za))) = Some v).
Proof.
  destruct w as [[n tr] s].
  unfold objective, spec_objective, objective_point, value_at, and_then.
  destruct xa, za; unfold_py; explore; simpl;
    (split; [split; [intros (mm & Hv); try discriminate Hv; reflexivity
                    |intros Hv; try discriminate Hv; eauto]|]);
    (split; [intros Hv; try discriminate Hv; reflexivity|]);
    intros Hv; try discriminate Hv; intros vv; split; intros Hw;
    try discriminate Hw; congruence.
Qed.

(** ** [step] without [f] *)

(** C5, which [step] does not meet.  When [f] is absent [step] never
    returns: it raises and assigns nothing, and when [mu / nu] and the two
    operator calls before it answer, what it raises is the attribute error
    of [None.prox].  ([objective], which guards [self.f], returns [g(z)]
    alone.) *)
Theorem step_without_f_raises (w : World) :
  f (self w) = None ->
  (exists w' err, step w = (w', Raise err) /\ self w' = self w) /\
  (forall q r1 r2,
     truediv (mu (self w)) (nu (self w)) = Some q ->
     forward (C (self w)) (oval (x (self w))) = Gives r1 ->
     adj (C (self w))
       (add (sub (op_value r1 (oval (x (self w)))) (oval (z (self w))))
          (oval (u (self w)))) = Gives r2 ->
     snd (step w) = Raise (AttributeError "'NoneType' object has no attribute 'prox'")).
Proof.
  destruct w as [[n tr] s]. simpl. intros Hf. unfold step. split.
  - unfold_py. explore; try congruence; eexists; eexists; split; reflexivity.
  - intros q r1 r2 Hq H1 H2.
    destruct r1, r2; simpl in *; unfold_py; simpl; use_outcomes; reflexivity.
Qed.

(** ** [norm_primal_residual] *)

(** The argument of [norm_primal_residual] has no effect. *)
Lemma norm_primal_residual_any (w : World) (xa : option obj) :
  norm_primal_residual xa w = norm_primal_residual None w.
Proof. reflexivity. Qed.

End Theory.

(** ** The properties at concrete solvers *)

Ltac answers := intros; eexists; reflexivity.

Ltac total_solver_is_well_configured :=
  split; [exists ZeroFunctional; split; [reflexivity | answers] |];
  split; [answers |];
  split; [split; answers |];
  split; [exists 0.5%float; reflexivity |];
  split; [intros F HF; injection HF as <-; answers | answers].

Lemma step_performs_update_witness :
  exists e' x' zc z' u',
    step scenario_world
    = ({| env := e';
          self := set_u u' (set_z z' (set_z_old zc (set_x x' scenario_solver))) |},
       Ok tt) /\
    iterates (set_u u' (set_z z' (set_z_old zc (set_x x' scenario_solver))))
    = upd_next scenario_update /\
    calls e' = calls (env scenario_world)
               ++ spec_calls 0.5%float 1%float (iterates scenario_solver) scenario_update /\
    next_id (env scenario_world) <= oid zc < next_id e' /\
    itstat_object (set_u u' (set_z z' (set_z_old zc (set_x x' scenario_solver))))
    = itstat_object scenario_solver.
Proof.
  apply (step_performs_update scenario_world ZeroFunctional scenario_update);
    reflexivity.
Defined.

Lemma scenario_constructs :
  scenario = (env scenario_world, Ok (self scenario_world)).
Proof. reflexivity. Qed.

Lemma z_old_is_a_snapshot_witness :
  oid (z (self scenario_world)) <> oid (z_old (self scenario_world)) /\
  oid (z (self (after step scenario_world)))
  <> oid (z_old (self (after step scenario_world))) /\
  (forall w', step scenario_world = (w', Ok tt) ->
     oval (z_old (self w')) = oval (z (self scenario_world)) /\
     oid (z_old (self w')) <> oid (z (self scenario_world))).
Proof.
  apply (z_old_is_a_snapshot scenario_world).
  exists scenario_world. split; [|apply reach_here].
  exists (Some ZeroFunctional), NonNegativeIndicator, (Identity 2), 0.5%float, 1%float,
    (Some (arr 0 [(-1)%float; 2%float])), 100%Z, false, ItNone,
    {| next_id := 1; calls := [] |}.
  split; [simpl; lia | reflexivity].
Defined.

Lemma solve_counts_iterations_witness :
  exists w',
    solve None (with_maxiter 2 scenario_world) = (w', Ok (x (self w'))) /\
    itnum (self w') = (0 + 2)%Z /\
    spec_updates 2 (self (with_maxiter 2 scenario_world)) (iterates scenario_solver)
    = Some (iterates (self w')) /\
    updates_of (calls (env w')) = updates_of (calls (env scenario_world)) + 2 /\
    iterations (itstat_object (self w'))
    = iterations (itstat_object scenario_solver) ++ scenario_records /\
    Z.of_nat (List.length scenario_records) = 2%Z.
Proof.
  apply (solve_counts_iterations None (with_maxiter 2 scenario_world) scenario_records).
  - simpl. lia.
  - exact I.
  - reflexivity.
Defined.

Lemma solve_resumes_witness :
  exists w1 w2 w12,
    solve None (with_maxiter 2 total_world) = (w1, Ok (x (self w1))) /\
    solve None (with_maxiter 3 w1) = (w2, Ok (x (self w2))) /\
    solve None (with_maxiter (2 + 3) total_world) = (w12, Ok (x (self w12))) /\
    iterates (self w2) = iterates (self w12) /\
    itnum (self w2) = itnum (self w12).
Proof.
  destruct (solve_resumes total_world 2 3 None None None) as [Hsame Hret];
    [lia | lia |].
  destruct Hret as (w1 & w2 & w12 & R1 & R2 & R12);
    [total_solver_is_well_configured | exact I | exact I | exact I |].
  exists w1, w2, w12.
  destruct (Hsame _ _ _ _ _ _ R1 R2 R12) as (E1 & E2 & _).
  repeat split; assumption.
Defined.

Lemma default_diagnostics_read_a_missing_attribute_witness :
  itstat_insert_func (self denoiser_world) = itstat_func_no_objective /\
  itstat_insert (itstat_insert_func (self denoiser_world)) denoiser_world
  = (denoiser_world,
     Raise (AttributeError "'LinearizedADMM' object has no attribute 'i'")) /\
  (exists w' err, solve None denoiser_world = (w', Raise err)) /\
  (forall F d,
     f (self denoiser_world) = Some F ->
     spec_step F (g (self denoiser_world)) (C (self denoiser_world))
       (mu (self denoiser_world)) (nu (self denoiser_world))
       (iterates (self denoiser_world)) = Some d ->
     exists w',
       solve None denoiser_world
       = (w', Raise (AttributeError "'LinearizedADMM' object has no attribute 'i'")) /\
       iterates (self w') = upd_next d /\
       itstat_object (self w') = itstat_object (self denoiser_world) /\
       itnum (self w') = itnum (self denoiser_world)).
Proof.
  apply (default_diagnostics_read_a_missing_attribute
           (Some ZeroFunctional) Denoiser (Identity 2) 0.5%float 1%float
           (Some (arr 0 [(-1)%float; 2%float])) 100%Z false
           {| next_id := 1; calls := [] |} (env denoiser_world) denoiser_solver
           denoiser_world None).
  - reflexivity.
  - reflexivity.
  - apply reach_here.
  - simpl. lia.
Defined.

Lemma step_without_f_raises_witness :
  (exists w' err, step world_without_f = (w', Raise err) /\ self w' = self world_without_f) /\
  (forall q r1 r2,
     truediv (mu (self world_without_f)) (nu (self world_without_f)) = Some q ->
     forward (C (self world_without_f)) (oval (x (self world_without_f))) = Gives r1 ->
     adj (C (self world_without_f))
       (add (sub (op_value r1 (oval (x (self world_without_f))))
               (oval (z (self world_without_f))))
          (oval (u (self world_without_f)))) = Gives r2 ->
     snd (step world_without_f)
     = Raise (AttributeError "'NoneType' object has no attribute 'prox'")).
Proof. apply (step_without_f_raises world_without_f). reflexivity. Defined.

(** The solver with [f = None] is the one [__init__] constructs, its
    objective is [g(z)] alone, and its [step] raises. *)
Lemma solver_without_f_runs :
  construct 1 None NonNegativeIndicator (Identity 2) 0.5%float 1%float
    (Some (arr 0 [(-1)%float; 2%float])) 100 ItNone
  = (env world_without_f, Ok (self world_without_f)) /\
  snd (objective None None world_without_f) = Ok infinity /\
  step world_without_f
  = ({| env := {| next_id := 7;
                  calls := [Apply [(-1)%float; 2%float]; Apply [(-1)%float; 2%float];
                            Adjoint [0%float; 0%float]] |};
        self := solver_without_f |},
     Raise (AttributeError "'NoneType' object has no attribute 'prox'")).
Proof. repeat split; reflexivity. Qed.

(** C2, which [norm_primal_residual] does not meet.  It returns the
    residual at the current iterate whatever its argument: at the
    solver of the scenario, where [z = [-1, 2]], it returns 0 for the
    argument [[2, 2]], at which the norm of [C(x) - z] is 3. *)
Theorem norm_primal_residual_ignores_its_argument :
  (forall (w : World) (a : obj),
     norm_primal_residual (Some a) w = norm_primal_residual None w) /\
  snd (norm_primal_residual (Some (arr 3 [2%float; 2%float])) scenario_world)
  = Ok 0%float /\
  spec_norm_primal_residual (C scenario_solver) [2%float; 2%float]
    (oval (z scenario_solver)) = Some 3%float.
Proof.
  split; [intros w a; apply norm_primal_residual_any|]. split; reflexivity.
Qed.

(** C3 fails: with [mu = -1] and [nu = 0] the constructor returns a solver. *)
Lemma init_accepts_nonpositive_parameters :
  PrimFloat.leb (-1)%float 0%float = true /\
  PrimFloat.leb 0%float 0%float = true /\
  match construct 1 (Some ZeroFunctional) NonNegativeIndicator (Identity 2)
          (-1)%float 0%float (Some (arr 0 [(-1)%float; 2%float])) 100 ItNone with
  | (_, Ok s) => mu s = (-1)%float /\ nu s = 0%float
  | (_, Raise _) => False
  end.
Proof. split; [reflexivity|]. split; [reflexivity|]. simpl. split; reflexivity. Qed.

(** C9 fails: in the scenario, after one [step] the iterate [x] is still
    [[-1, 2]], which is not within the tolerance of [[0, 2]]. *)
Lemma scenario_x_is_not_clamped_after_one_step :
  scenario = (env scenario_world, Ok (self scenario_world)) /\
  snd (step scenario_world) = Ok tt /\
  oval (x (self (after step scenario_world))) = [(-1)%float; 2%float] /\
  close_to (oval (x (self (after step scenario_world)))) [0%float; 2%float] = false.
Proof. repeat split; reflexivity. Qed.

(** C9, as amended.  In the scenario, after one [step] it is [z] that
    equals [[0, 2]], within the tolerance and exactly, while [x] equals
    [[-1, 2]]; [x] equals [[0, 2]] after the second [step]. *)
Theorem scenario_after_one_step :
  scenario = (env scenario_world, Ok (self scenario_world)) /\
  snd (step scenario_world) = Ok tt /\
  oval (x (self (steps 1 scenario_world))) = [(-1)%float; 2%float] /\
  oval (z (self (steps 1 scenario_world))) = [0%float; 2%float] /\
  close_to (oval (z (self (steps 1 scenario_world)))) [0%float; 2%float] = true /\
  snd (step (steps 1 scenario_world)) = Ok tt /\
  oval (x (self (steps 2 scenario_world))) = [0%float; 2%float] /\
  close_to (oval (x (self (steps 2 scenario_world)))) [0%float; 2%float] = true.
Proof. repeat split; reflexivity. Qed.

(** * Further properties of [ladmm.py] *)

Section Further.
Context {NP : Numpy}.

(** ** Edge and error behaviour *)

(** X1. With a budget [maxiter <= 0] the loop of [solve] is not entered:
    [solve] returns the current [x], makes no collaborator call, creates no
    array and inserts no record, but starts and stops the timer and still
    advances the counter by one. *)
Theorem solve_with_empty_budget cb (w : World) :
  (maxiter (self w) <= 0)%Z ->
  exists w',
    solve cb w = (w', Ok (x (self w))) /\
    env w' = env w /\
    x (self w') = x (self w) /\ z (self w') = z (self w) /\
    z_old (self w') = z_old (self w) /\ u (self w') = u (self w) /\
    itstat_object (self w') = itstat_object (self w) /\
    timer (self w') = stop (start (timer (self w))) /\
    itnum (self w') = (itnum (self w) + 1)%Z.
Proof.
  intros Hm. unfold solve. rewrite run_this, run_assign, run_this. simpl self.
  replace (Z.to_nat (itnum (set_timer (start (timer (self w))) (self w))
           + maxiter (set_timer (start (timer (self w))) (self w))
           - itnum (set_timer (start (timer (self w))) (self w)))) with 0
    by (simpl; lia).
  simpl for_itnum. eexists. split; [reflexivity|]. simpl. repeat split; reflexivity.
Qed.

(** X2. When [step] raises, [z] and [u] are the objects they were; either
    [x] and [z_old] are as they were too (the failure came no later than
    [f.prox]), or [f] is present and [z_old] is a new object holding the
    value of [z] (the failure came in the second operator call or in
    [g.prox], after [x] and [z_old] were assigned). *)
Theorem step_raise_is_partial (w : World) (e : exn) :
  snd (step w) = Raise e ->
  z (self (after step w)) = z (self w) /\ u (self (after step w)) = u (self w) /\
  ((x (self (after step w)) = x (self w) /\
    z_old (self (after step w)) = z_old (self w)) \/
   (oval (z_old (self (after step w))) = oval (z (self w)) /\
    next_id (env w) <= oid (z_old (self (after step w))) /\
    exists F, f (self w) = Some F)).
Proof.
  destruct w as [[n tr] s]. unfold after, step. unfold_py.
  explore; intros Hv; try discriminate Hv; simpl;
    (split; [reflexivity|]); (split; [reflexivity|]);
    first [left; split; reflexivity | right; split; [reflexivity|]; split; [lia|eauto]].
Qed.

(** X3. When [mu / nu] is a division by zero, [step] raises it before any
    collaborator is called and leaves the state as it was; [solve] with a
    budget of at least 1 then raises it in its first iteration, with the
    counter where it was. *)
Theorem step_division_by_zero (w : World) :
  truediv (mu (self w)) (nu (self w)) = None ->
  step w = (w, Raise (ZeroDivisionError "float division by zero")) /\
  forall cb, (1 <= maxiter (self w))%Z ->
    snd (solve cb w) = Raise (ZeroDivisionError "float division by zero") /\
    itnum (self (after (solve cb) w)) = itnum (self w) /\
    env (after (solve cb) w) = env w.
Proof.
  intros Hq.
  assert (Hstep : forall w0 : World,
             truediv (mu (self w0)) (nu (self w0)) = None ->
             step w0 = (w0, Raise (ZeroDivisionError "float division by zero"))).
  { intros [[n tr] s] H0. simpl in H0. unfold step. unfold_py. simpl. rewrite H0.
    reflexivity. }
  split; [exact (Hstep w Hq)|].
  intros cb Hm. unfold after, solve. rewrite run_this, run_assign, run_this.
  set (w0 := {| env := env w; self := set_timer (start (timer (self w))) (self w) |}).
  replace (itnum (self w0) + maxiter (self w0) - itnum (self w0))%Z
    with (maxiter (self w)) by (simpl; lia).
  destruct (Z.to_nat (maxiter (self w))) as [|k] eqn:E; [lia|].
  assert (Hloop : for_itnum (S k) (itnum (self w0)) (iteration cb) w0
                  = (w0, Raise (ZeroDivisionError "float division by zero"))).
  { simpl for_itnum. rewrite run_assign.
    apply run_bind_raise. unfold iteration. apply run_bind_raise.
    exact (Hstep w0 Hq). }
  rewrite (run_bind_raise _ _ _ _ _ Hloop). simpl. repeat split; reflexivity.
Qed.

(** X4. The argument [itstat] of [__init__]: a value that is false without
    being [None] makes the constructor raise the unbound-local error before
    anything is created or called; a pair is stored as given, whatever
    [g.has_eval] says, and the stored function is what the diagnostics
    call, its failure propagated. *)
Theorem itstat_argument f0 g0 C0 mu0 nu0 x0 maxiter0 verbose0 e :
  init f0 g0 C0 mu0 nu0 x0 maxiter0 verbose0 ItEmpty e
  = (e, Raise (UnboundLocalError
                 "local variable 'itstat_dict' referenced before assignment")) /\
  (forall d fn e' s,
     init f0 g0 C0 mu0 nu0 x0 maxiter0 verbose0 (ItPair d fn) e = (e', Ok s) ->
     fields (itstat_object s) = d /\ itstat_insert_func s = itstat_func_user fn /\
     forall w : World,
       itstat_insert_func (self w) = itstat_insert_func s ->
       itstat_insert (itstat_insert_func (self w)) w
       = (w, match fn (snapshot (self w)) with
             | Gives rec => Ok rec
             | Fails msg => Raise (Propagated msg)
             end)).
Proof.
  split; [reflexivity|].
  intros d fn e' s Hinit.
  assert (Hs : fields (itstat_object s) = d /\ itstat_insert_func s = itstat_func_user fn).
  { revert Hinit. destruct e as [n tr]. unfold init, z_init, u_init.
    destruct x0; unfold_py; explore; intros Hv; try discriminate Hv; inversion Hv;
      split; reflexivity. }
  destruct Hs as [Hd Hk]. split; [exact Hd|]. split; [exact Hk|].
  intros [e0 s0] Hw. simpl in Hw. simpl self. rewrite Hw, Hk.
  unfold itstat_insert. rewrite run_this. simpl self.
  destruct (fn (snapshot s0)); reflexivity.
Qed.

(** ** The methods that only read *)

(** X5. [objective], [norm_primal_residual] and [norm_dual_residual]
    assign no attribute of the solver, whether they return or raise, and
    never call [g.prox]. *)
Theorem residuals_and_objective_are_read_only (w : World) (xa za : option obj) :
  self (after (objective xa za) w) = self w /\
  self (after (norm_primal_residual xa) w) = self w /\
  self (after norm_dual_residual w) = self w /\
  updates_of (calls (env (after (objective xa za) w))) = updates_of (calls (env w)) /\
  updates_of (calls (env (after (norm_primal_residual xa) w)))
  = updates_of (calls (env w)) /\
  updates_of (calls (env (after norm_dual_residual w))) = updates_of (calls (env w)).
Proof.
  destruct (objective_observes xa za w) as (A1 & _ & A2).
  destruct (norm_primal_residual_observes xa w) as (B1 & _ & B2).
  destruct (norm_dual_residual_observes w) as (C1 & _ & C2).
  repeat split; assumption.
Qed.

(** X6. [norm_dual_residual] makes one call, of the adjoint of [C] at
    [z - z_old]; it returns the norm of the result when that call answers,
    and raises the operator's failure when it does not. *)
Theorem norm_dual_residual_computes (w : World) :
  calls (env (after norm_dual_residual w))
  = calls (env w) ++ [Adjoint (sub (oval (z (self w))) (oval (z_old (self w))))] /\
  (forall v,
     snd (norm_dual_residual w) = Ok v <->
     spec_norm_dual_residual (C (self w)) (oval (z (self w))) (oval (z_old (self w)))
     = Some v) /\
  (forall msg,
     snd (norm_dual_residual w) = Raise (Propagated msg) <->
     adj (C (self w)) (sub (oval (z (self w))) (oval (z_old (self w)))) = Fails msg).
Proof.
  destruct w as [[n tr] s].
  unfold norm_dual_residual, spec_norm_dual_residual, adjoint_C, and_then. unfold_py.
  explore; (split; [reflexivity|]);
    split; intros vv; split; intros Hv; try discriminate Hv; inversion Hv; reflexivity.
Qed.

(** X7. Called without argument, [norm_primal_residual] makes one call, of
    [C] at the current [x], and returns the norm of [C(x) - z] exactly when
    that call answers. *)
Theorem norm_primal_residual_at_current_iterate (w : World) :
  calls (env (after (norm_primal_residual None) w))
  = calls (env w) ++ [Apply (oval (x (self w)))] /\
  (forall v,
     snd (norm_primal_residual None w) = Ok v <->
     spec_norm_primal_residual (C (self w)) (oval (x (self w))) (oval (z (self w)))
     = Some v).
Proof.
  destruct w as [[n tr] s].
  unfold norm_primal_residual, spec_norm_primal_residual, apply_C, and_then. unfold_py.
  explore; (split; [reflexivity|]);
    intros vv; split; intros Hv; try discriminate Hv; inversion Hv; reflexivity.
Qed.

(** X8. The evaluations [objective] makes: none when exactly one argument
    is given; otherwise [f] first, when present, and then [g], which is not
    evaluated when the evaluation of [f] fails. *)
Theorem objective_evaluates_f_then_g (w : World) (xa za : option obj) :
  calls (env (after (objective xa za) w))
  = calls (env w) ++ objective_calls (self w) xa za.
Proof.
  destruct w as [[n tr] s]. unfold objective, objective_calls, objective_point.
  destruct xa, za; unfold_py; explore; simpl;
    rewrite <- ?app_assoc, ?app_nil_r; reflexivity.
Qed.

(** X9. [step] evaluates neither [f] nor [g]: whatever the outcome, the
    calls it makes are operator and prox calls only, so a functional that
    cannot be evaluated does not stop it. *)
Theorem step_never_evaluates (w : World) :
  exists l,
    calls (env (after step w)) = calls (env w) ++ l /\
    Forall (fun ev => is_eval ev = false) l.
Proof.
  destruct w as [[n tr] s]. unfold after, step. unfold_py.
  explore; simpl;
    first [ exists nil; split; [symmetry; apply app_nil_r | constructor]
          | rewrite <- ?app_assoc; eexists; split;
            [reflexivity | repeat constructor] ].
Qed.

(** ** Construction *)


(** X11. The default diagnostics: constructed with [itstat = None], the
    solver's schema has the field Objective exactly when [g.has_eval] is
    true; every record its diagnostics function returns then has as many
    entries as the schema has fields, and they are the counter, the elapsed
    time, the objective and the primal and dual residuals at the current
    iterate (when [g.has_eval] is false the function returns no record). *)
Theorem default_schema_matches_records
  f0 g0 C0 mu0 nu0 x0 maxiter0 verbose0 e e' s :
  init f0 g0 C0 mu0 nu0 x0 maxiter0 verbose0 ItNone e = (e', Ok s) ->
  fields (itstat_object s)
  = (if has_eval g0 then itstat_dict_objective else itstat_dict_no_objective) /\
  (In "Objective"%string (map fst (fields (itstat_object s))) <-> has_eval g0 = true) /\
  (forall (w : World) (rec : list value),
     itstat_insert_func (self w) = itstat_insert_func s ->
     snd (itstat_insert (itstat_insert_func (self w)) w) = Ok rec ->
     has_eval g0 = true /\
     List.length rec = List.length (fields (itstat_object s)) /\
     exists o p q,
       rec = [VInt (itnum (self w)); VFloat (elapsed (timer (self w)));
              VFloat o; VFloat p; VFloat q] /\
       spec_objective (f (self w)) (g (self w)) (oval (x (self w))) (oval (z (self w)))
       = Some o /\
       spec_norm_primal_residual (C (self w)) (oval (x (self w))) (oval (z (self w)))
       = Some p /\
       spec_norm_dual_residual (C (self w)) (oval (z (self w))) (oval (z_old (self w)))
       = Some q).
Proof.
  intros Hinit.
  pose proof (init_selects _ _ _ _ _ _ _ _ _ _ _ Hinit) as Hsel.
  assert (Hf : fields (itstat_object s)
               = (if has_eval g0 then itstat_dict_objective else itstat_dict_no_objective)).
  { revert Hinit. destruct e as [n tr]. unfold init, z_init, u_init.
    destruct x0, (has_eval g0); unfold_py; explore;
      intros Hv; try discriminate Hv; inversion Hv; reflexivity. }
  split; [exact Hf|]. split.
  { rewrite Hf. destruct (has_eval g0); simpl; split; intros H;
      try reflexivity; try discriminate H; intuition; try discriminate. }
  intros w rec Hk Hrec. rewrite Hsel in Hk.
  apply itstat_insert_spec in Hrec. unfold spec_record in Hrec. rewrite Hk in Hrec.
  rewrite Hf.
  destruct (has_eval g0); [|discriminate Hrec]. split; [reflexivity|].
  unfold and_then in Hrec. simpl in Hrec.
  destruct (spec_objective _ _ _ _) as [o|]; [|discriminate Hrec].
  destruct (spec_norm_primal_residual _ _ _) as [p|]; [|discriminate Hrec].
  destruct (spec_norm_dual_residual _ _ _) as [q|]; [|discriminate Hrec].
  injection Hrec as <-. split; [reflexivity|].
  exists o, p, q. repeat split; reflexivity.
Qed.

(** ** [solve], whatever its outcome *)

Lemma extended_nil (st : IterationStats) : extended st [] = st.
Proof. destruct st. unfold extended. simpl. rewrite app_nil_r. reflexivity. Qed.

Lemma extended_app (st : IterationStats) (l l' : list (list value)) :
  extended (extended st l) l' = extended st (l ++ l').
Proof. unfold extended. simpl. rewrite app_assoc. reflexivity. Qed.

(** One pass of the loop body: at most one record is inserted, and none
    unless [step] and the diagnostics function returned. *)
Lemma iteration_outcome cb (w : World) :
  same_setup (self w) (self (after (iteration cb) w)) /\
  itnum (self (after (iteration cb) w)) = itnum (self w) /\
  maxiter (self (after (iteration cb) w)) = maxiter (self w) /\
  exists recs,
    itstat_object (self (after (iteration cb) w))
    = extended (itstat_object (self w)) recs /\
    match snd (iteration cb w) with
    | Ok _ => List.length recs = 1 /\
              timer (self (after (iteration cb) w)) = pause cb (timer (self w))
    | Raise _ => List.length recs = 0 \/
                 (cb <> None /\ List.length recs = 1)
    end.
Proof.
  unfold after, iteration.
  destruct (step_keeps_setup w) as [Hsetup (Hnum & Hmax & Htm & Hlog)].
  unfold after in *.
  destruct (step w) as [w1 [[]|e]] eqn:Hstep; simpl fst in *.
  2:{ rewrite (run_bind_raise _ _ _ _ _ Hstep). simpl.
      split; [assumption|]. split; [assumption|]. split; [assumption|].
      exists nil. rewrite extended_nil.
      split; [congruence | left; reflexivity]. }
  rewrite (run_bind_ok _ _ _ _ _ Hstep), run_this.
  destruct (itstat_insert_observes (itstat_insert_func (self w1)) w1) as (Hself & _ & _).
  unfold after in Hself.
  destruct (itstat_insert (itstat_insert_func (self w1)) w1) as [w2 [rec|e]] eqn:Hins;
    simpl fst in *.
  2:{ rewrite (run_bind_raise _ _ _ _ _ Hins). simpl. rewrite Hself.
      split; [assumption|]. split; [assumption|]. split; [assumption|].
      exists nil. rewrite extended_nil.
      split; [congruence | left; reflexivity]. }
  rewrite (run_bind_ok _ _ _ _ _ Hins), run_this, run_assign.
  destruct Hsetup as (Ef & Eg & EC & Emu & Enu & Evb & Eif).
  destruct cb as [cb|].
  - rewrite run_this, run_assign, run_this. unfold bind at 1. simpl.
    destruct (cb _) as [[]|msg]; simpl; rewrite Hself;
      (split; [unfold same_setup; simpl; intuition|]);
      (split; [assumption|]); (split; [assumption|]);
      exists [rec]; rewrite Hlog; (split; [reflexivity|]).
    + split; [reflexivity|]. rewrite Htm. reflexivity.
    + right. split; [discriminate | reflexivity].
  - simpl. rewrite Hself.
    split; [unfold same_setup; simpl; intuition|].
    split; [assumption|]. split; [assumption|].
    exists [rec]. rewrite Hlog. split; [reflexivity|].
    split; [reflexivity | exact Htm].
Qed.

(** The loop: when it raises in the pass numbered [j], the counter is the
    one of that pass and [j] records have been inserted, or [j + 1] when
    it is the callback that failed. *)
Lemma for_itnum_outcome cb (n : nat) :
  forall (i : Z) (w : World),
    same_setup (self w) (self (after (for_itnum n i (iteration cb)) w)) /\
    maxiter (self (after (for_itnum n i (iteration cb)) w)) = maxiter (self w) /\
    exists recs,
      itstat_object (self (after (for_itnum n i (iteration cb)) w))
      = extended (itstat_object (self w)) recs /\
      match snd (for_itnum n i (iteration cb) w) with
      | Ok _ =>
          List.length recs = n /\
          itnum (self (after (for_itnum n i (iteration cb)) w))
          = match n with O => itnum (self w) | S k => (i + Z.of_nat k)%Z end /\
          timer (self (after (for_itnum n i (iteration cb)) w))
          = Nat.iter n (pause cb) (timer (self w))
      | Raise _ =>
          exists j, j < n /\
            itnum (self (after (for_itnum n i (iteration cb)) w)) = (i + Z.of_nat j)%Z /\
            (List.length recs = j \/ (cb <> None /\ List.length recs = S j))
      end.
Proof.
  induction n as [|k IH]; intros i w.
  - simpl. unfold after. simpl. split; [repeat split|]. split; [reflexivity|].
    exists nil. rewrite extended_nil. repeat split; reflexivity.
  - simpl for_itnum. unfold after. rewrite run_assign.
    set (w0 := {| env := env w; self := set_itnum i (self w) |}).
    destruct (iteration_outcome cb w0) as (Hsetup & Hnum & Hmax & recs & Hlog & Hout).
    unfold after in *.
    destruct (iteration cb w0) as [w1 [[]|e]] eqn:Hrun; simpl fst in *; simpl snd in *.
    2:{ rewrite (run_bind_raise _ _ _ _ _ Hrun). simpl.
        split; [destruct Hsetup as (? & ? & ? & ? & ? & ? & ?); simpl in *;
                unfold same_setup; intuition|].
        split; [exact Hmax|]. exists recs. split; [exact Hlog|].
        exists 0. split; [lia|]. split; [simpl in Hnum; rewrite Hnum; lia|].
        exact Hout. }
    rewrite (run_bind_ok _ _ _ _ _ Hrun).
    destruct Hout as [Hlen Htm].
    destruct (IH (i + 1)%Z w1) as (Hsetup' & Hmax' & recs' & Hlog' & Hout').
    unfold after in *.
    destruct (for_itnum k (i + 1) (iteration cb) w1) as [w' r]; simpl fst in *;
      simpl snd in *.
    split.
    { destruct Hsetup as (? & ? & ? & ? & ? & ? & ?).
      destruct Hsetup' as (? & ? & ? & ? & ? & ? & ?). simpl in *.
      unfold same_setup. intuition congruence. }
    split; [simpl in Hmax; congruence|].
    exists (recs ++ recs'). split; [rewrite Hlog', Hlog, extended_app; reflexivity|].
    destruct r as [[]|e'].
    + destruct Hout' as (Hlen' & Hnum' & Htm').
      split; [rewrite length_app; lia|].
      split.
      { rewrite Hnum'. destruct k; [simpl in Hnum; rewrite Hnum; lia | lia]. }
      rewrite Htm', Htm. simpl timer. rewrite <- Nat.iter_succ_r. reflexivity.
    + destruct Hout' as (j & Hj & Hnum' & Hlen').
      exists (S j). split; [lia|]. split; [rewrite Hnum'; lia|].
      rewrite length_app. destruct Hlen' as [Hl|[Hc Hl]]; [left; lia | right].
      split; [exact Hc | lia].
Qed.

Lemma solve_outcome cb (w : World) :
  same_setup (self w) (self (after (solve cb) w)) /\
  maxiter (self (after (solve cb) w)) = maxiter (self w) /\
  exists recs,
    itstat_object (self (after (solve cb) w))
    = extended (itstat_object (self w)) recs /\
    match snd (solve cb w) with
    | Ok r =>
        r = x (self (after (solve cb) w)) /\
        List.length recs = Z.to_nat (maxiter (self w)) /\
        itnum (self (after (solve cb) w))
        = (itnum (self w) + Z.max 1 (maxiter (self w)))%Z /\
        timer (self (after (solve cb) w))
        = stop (Nat.iter (Z.to_nat (maxiter (self w))) (pause cb)
                  (start (timer (self w))))
    | Raise _ =>
        exists j, (Z.of_nat j < maxiter (self w))%Z /\
          itnum (self (after (solve cb) w)) = (itnum (self w) + Z.of_nat j)%Z /\
          (List.length recs = j \/ (cb <> None /\ List.length recs = S j))
    end.
Proof.
  unfold after, solve. rewrite run_this, run_assign, run_this.
  set (w0 := {| env := env w; self := set_timer (start (timer (self w))) (self w) |}).
  replace (itnum (self w0) + maxiter (self w0) - itnum (self w0))%Z
    with (maxiter (self w)) by (simpl; lia).
  destruct (for_itnum_outcome cb (Z.to_nat (maxiter (self w))) (itnum (self w0)) w0)
    as (Hsetup & Hmax & recs & Hlog & Hout).
  unfold after in *.
  destruct (for_itnum _ _ _ w0) as [w1 [[]|e]] eqn:Hrun; simpl fst in *; simpl snd in *.
  - rewrite (run_bind_ok _ _ _ _ _ Hrun). unfold_py. simpl.
    destruct Hout as (Hlen & Hnum & Htm).
    split; [destruct Hsetup as (? & ? & ? & ? & ? & ? & ?); simpl in *;
            unfold same_setup; intuition|].
    split; [exact Hmax|]. exists recs. split; [exact Hlog|].
    split; [reflexivity|]. split; [exact Hlen|].
    split; [|rewrite Htm; reflexivity].
    rewrite Hnum. simpl. destruct (Z.to_nat (maxiter (self w))) eqn:E; lia.
  - rewrite (run_bind_raise _ _ _ _ _ Hrun). simpl.
    destruct Hout as (j & Hj & Hnum & Hlen).
    split; [destruct Hsetup as (? & ? & ? & ? & ? & ? & ?); simpl in *;
            unfold same_setup; intuition|].
    split; [exact Hmax|]. exists recs. split; [exact Hlog|].
    exists j. split; [lia|]. split; [exact Hnum | exact Hlen].
Qed.

(** X12. When [solve] raises, the budget was at least 1 and progress is
    kept: having failed in the pass numbered [j < maxiter], it leaves the
    counter at [itnum + j] (it is not advanced past the failing pass) and
    has inserted the [j] records of the passes before, and one more when it
    is the callback that failed; the records already there are untouched. *)
Theorem solve_raise_keeps_progress cb (w : World) (e : exn) :
  snd (solve cb w) = Raise e ->
  exists (j : nat) (recs : list (list value)),
    (Z.of_nat j < maxiter (self w))%Z /\
    itnum (self (after (solve cb) w)) = (itnum (self w) + Z.of_nat j)%Z /\
    itstat_object (self (after (solve cb) w))
    = extended (itstat_object (self w)) recs /\
    (List.length recs = j \/ (cb <> None /\ List.length recs = S j)) /\
    maxiter (self (after (solve cb) w)) = maxiter (self w).
Proof.
  intros Hraise.
  destruct (solve_outcome cb w) as (_ & Hmax & recs & Hlog & Hout).
  rewrite Hraise in Hout. destruct Hout as (j & Hj & Hn & Hl).
  exists j, recs. repeat split; assumption.
Qed.

(** X13. When [solve] returns, the timer has been started once, stopped
    and started again around each call of the callback, if there is one,
    and stopped at the end. *)
Theorem solve_pauses_timer cb (w : World) :
  (exists r, snd (solve cb w) = Ok r) ->
  timer (self (after (solve cb) w))
  = stop (Nat.iter (Z.to_nat (maxiter (self w))) (pause cb) (start (timer (self w)))).
Proof.
  intros [r Hret].
  destruct (solve_outcome cb w) as (_ & _ & recs & _ & Hout).
  rewrite Hret in Hout. destruct Hout as (_ & _ & _ & Htm). exact Htm.
Qed.

(** ** Invariants over the solver's life *)

Lemma init_counter f0 g0 C0 mu0 nu0 x0 maxiter0 verbose0 itstat e e' s :
  init f0 g0 C0 mu0 nu0 x0 maxiter0 verbose0 itstat e = (e', Ok s) -> itnum s = 0%Z.
Proof.
  destruct e as [n tr]. unfold init, z_init, u_init.
  destruct itstat, x0, (has_eval g0); unfold_py; explore;
    intros Hv; try discriminate Hv; inversion Hv; reflexivity.
Qed.

Lemma solve_counter_grows cb (w : World) :
  (itnum (self w) <= itnum (self (after (solve cb) w)))%Z.
Proof.
  destruct (solve_outcome cb w) as (_ & _ & recs & _ & Hout).
  destruct (snd (solve cb w)).
  - destruct Hout as (_ & _ & Hn & _). lia.
  - destruct Hout as (j & _ & Hn & _). lia.
Qed.

(** X14. No method makes the counter smaller, whether it returns or
    raises: in every state reached from a state [w0] the counter is at
    least the one of [w0], so at least 0 after a construction. *)
Theorem itnum_never_decreases (w0 w : World) :
  reachable_from w0 w ->
  (itnum (self w0) <= itnum (self w))%Z /\
  (constructed w0 -> (0 <= itnum (self w))%Z).
Proof.
  intros Hr.
  assert (Hle : (itnum (self w0) <= itnum (self w))%Z).
  { induction Hr as [|w Hr IH|w cb Hr IH|w xa za Hr IH|w xa Hr IH|w Hr IH|w n Hr IH].
    - lia.
    - destruct (step_keeps_setup w) as [_ (Hn & _)]. lia.
    - pose proof (solve_counter_grows cb w). lia.
    - destruct (objective_observes xa za w) as (Hs & _). rewrite Hs. exact IH.
    - destruct (norm_primal_residual_observes xa w) as (Hs & _). rewrite Hs. exact IH.
    - destruct (norm_dual_residual_observes w) as (Hs & _). rewrite Hs. exact IH.
    - exact IH. }
  split; [exact Hle|].
  intros (f0 & g0 & C0 & mu0 & nu0 & x0 & mx & vb & it & e & _ & Hi).
  rewrite (init_counter _ _ _ _ _ _ _ _ _ _ _ _ Hi) in Hle. exact Hle.
Qed.

(** X15. No method assigns [f], [g], [C], [mu], [nu], [verbose] or the
    diagnostics function, nor changes the schema of the diagnostics: in
    every state reached from [w0], returning or raising on the way, they
    are those of [w0]. *)
Theorem setup_is_fixed (w0 w : World) :
  reachable_from w0 w ->
  f (self w) = f (self w0) /\ g (self w) = g (self w0) /\ C (self w) = C (self w0) /\
  mu (self w) = mu (self w0) /\ nu (self w) = nu (self w0) /\
  verbose (self w) = verbose (self w0) /\
  itstat_insert_func (self w) = itstat_insert_func (self w0) /\
  fields (itstat_object (self w)) = fields (itstat_object (self w0)).
Proof.
  intros Hr.
  assert (Hs : same_setup (self w0) (self w)).
  { apply (reachable_from_preserves (fun w => same_setup (self w0) (self w)) w0 w
             (setup_stable (self w0)) (step_preserves_setup (self w0)));
      [repeat split | exact Hr]. }
  destruct Hs as (? & ? & ? & ? & ? & ? & ?).
  repeat split; try assumption.
  clear - Hr.
  induction Hr as [|w Hr IH|w cb Hr IH|w xa za Hr IH|w xa Hr IH|w Hr IH|w n Hr IH].
  - reflexivity.
  - destruct (step_keeps_setup w) as [_ (_ & _ & _ & Hl)]. rewrite Hl. exact IH.
  - destruct (solve_outcome cb w) as (_ & _ & recs & Hl & _). rewrite Hl. exact IH.
  - destruct (objective_observes xa za w) as (Hs & _). rewrite Hs. exact IH.
  - destruct (norm_primal_residual_observes xa w) as (Hs & _). rewrite Hs. exact IH.
  - destruct (norm_dual_residual_observes w) as (Hs & _). rewrite Hs. exact IH.
  - exact IH.
Qed.

(** X16. [n] calls of [solve] in a row with a budget [maxiter >= 1], when
    they all return, advance the counter by [n * maxiter] and leave the
    iterates of [n * maxiter] updates, as one call with that budget
    would. *)
Theorem solve_repeatedly_adds_up cb (n : nat) (w : World) :
  (1 <= maxiter (self w))%Z ->
  snd (solve_repeatedly n cb w) = Ok tt ->
  itnum (self (after (solve_repeatedly n cb) w))
  = (itnum (self w) + Z.of_nat n * maxiter (self w))%Z /\
  spec_updates (n * Z.to_nat (maxiter (self w))) (self w) (iterates (self w))
  = Some (iterates (self (after (solve_repeatedly n cb) w))) /\
  maxiter (self (after (solve_repeatedly n cb) w)) = maxiter (self w).
Proof.
  revert w. induction n as [|k IH]; intros w Hm H.
  - unfold after. simpl. repeat split; try reflexivity; lia.
  - unfold after in *. simpl solve_repeatedly in *.
    destruct (solve cb w) as [w1 [r|e]] eqn:Hrun.
    2:{ rewrite (run_bind_raise _ _ _ _ _ Hrun) in H. discriminate H. }
    rewrite (run_bind_ok _ _ _ _ _ Hrun) in *.
    destruct (solve_inv _ _ _ _ Hrun) as (_ & Hs1 & Hsetup & Hn1).
    destruct (solve_outcome cb w) as (_ & Hmax & _).
    unfold after in Hmax. rewrite Hrun in Hmax. simpl in Hmax.
    destruct (IH w1 ltac:(lia) H) as (Hn & Hs & Hmax').
    rewrite Hmax in Hn, Hs, Hmax'.
    rewrite (spec_updates_setup (self w) (self w1) _ Hsetup) in Hs.
    split; [lia|]. split; [|exact Hmax'].
    replace (S k * Z.to_nat (maxiter (self w)))
      with (Z.to_nat (maxiter (self w)) + k * Z.to_nat (maxiter (self w))) by lia.
    rewrite (spec_updates_add _ _ _ _ _ Hs1). exact Hs.
Qed.

End Further.

(** ** The further properties at concrete solvers *)

Lemma solve_with_empty_budget_witness :
  exists w',
    solve watch (with_maxiter 0 scenario_world)
    = (w', Ok (x (self (with_maxiter 0 scenario_world)))) /\
    env w' = env (with_maxiter 0 scenario_world) /\
    x (self w') = x (self (with_maxiter 0 scenario_world)) /\
    z (self w') = z (self (with_maxiter 0 scenario_world)) /\
    z_old (self w') = z_old (self (with_maxiter 0 scenario_world)) /\
    u (self w') = u (self (with_maxiter 0 scenario_world)) /\
    itstat_object (self w') = itstat_object (self (with_maxiter 0 scenario_world)) /\
    timer (self w') = stop (start (timer (self (with_maxiter 0 scenario_world)))) /\
    itnum (self w') = (itnum (self (with_maxiter 0 scenario_world)) + 1)%Z.
Proof.
  apply (solve_with_empty_budget watch (with_maxiter 0 scenario_world)). simpl. lia.
Defined.

Lemma step_raise_is_partial_witness :
  z (self (after step world_without_f)) = z (self world_without_f) /\
  u (self (after step world_without_f)) = u (self world_without_f) /\
  ((x (self (after step world_without_f)) = x (self world_without_f) /\
    z_old (self (after step world_without_f)) = z_old (self world_without_f)) \/
   (oval (z_old (self (after step world_without_f))) = oval (z (self world_without_f)) /\
    next_id (env world_without_f) <= oid (z_old (self (after step world_without_f))) /\
    exists F, f (self world_without_f) = Some F)).
Proof.
  apply (step_raise_is_partial world_without_f
           (AttributeError "'NoneType' object has no attribute 'prox'")).
  reflexivity.
Defined.

Lemma step_division_by_zero_witness :
  step zero_nu_world
  = (zero_nu_world, Raise (ZeroDivisionError "float division by zero")) /\
  snd (solve None zero_nu_world) = Raise (ZeroDivisionError "float division by zero") /\
  itnum (self (after (solve None) zero_nu_world)) = itnum (self zero_nu_world) /\
  env (after (solve None) zero_nu_world) = env zero_nu_world.
Proof.
  destruct (step_division_by_zero zero_nu_world) as [Hstep Hsolve]; [reflexivity|].
  split; [exact Hstep|]. apply (Hsolve None). simpl. lia.
Defined.

Lemma itstat_argument_witness :
  construct 1 (Some ZeroFunctional) NonNegativeIndicator (Identity 2) 0.5%float 1%float
    (Some (arr 0 [(-1)%float; 2%float])) 100 ItEmpty
  = ({| next_id := 1; calls := [] |},
     Raise (UnboundLocalError
              "local variable 'itstat_dict' referenced before assignment")) /\
  match construct 1 (Some ZeroFunctional) Denoiser (Identity 2) 0.5%float 1%float
          (Some (arr 0 [(-1)%float; 2%float])) 100
          (ItPair [("Iter", "%d")] (fun p => Gives [VInt (snap_itnum p)])) with
  | (_, Ok s) =>
      fields (itstat_object s) = [("Iter", "%d")] /\
      itstat_insert (itstat_insert_func s)
        {| env := {| next_id := 3; calls := [] |}; self := s |}
      = ({| env := {| next_id := 3; calls := [] |}; self := s |}, Ok [VInt 0])
  | (_, Raise _) => False
  end.
Proof.
  destruct (itstat_argument (Some ZeroFunctional) Denoiser (Identity 2) 0.5%float
              1%float (Some (arr 0 [(-1)%float; 2%float])) 100%Z false
              {| next_id := 1; calls := [] |}) as [_ Hpair].
  split; [reflexivity|].
  destruct (construct 1 (Some ZeroFunctional) Denoiser (Identity 2) 0.5%float 1%float
              (Some (arr 0 [(-1)%float; 2%float])) 100
              (ItPair [("Iter", "%d")] (fun p => Gives [VInt (snap_itnum p)])))
    as [e' [s|err]] eqn:Hc; [|discriminate Hc].
  destruct (Hpair _ _ _ _ Hc) as (Hd & _ & Hrun).
  split; [exact Hd|].
  pose proof (Hrun {| env := {| next_id := 3; calls := [] |}; self := s |} eq_refl)
    as Hins.
  simpl self in Hins. rewrite Hins.
  vm_compute in Hc. injection Hc as _ <-. reflexivity.
Defined.


Lemma default_schema_matches_records_witness :
  fields (itstat_object scenario_solver) = itstat_dict_objective /\
  (In "Objective"%string (map fst (fields (itstat_object scenario_solver)))
   <-> has_eval NonNegativeIndicator = true) /\
  List.length [VInt 0; VFloat 0%float; VFloat infinity; VFloat 0%float; VFloat 0%float]
  = List.length (fields (itstat_object scenario_solver)).
Proof.
  destruct (default_schema_matches_records (Some ZeroFunctional) NonNegativeIndicator
              (Identity 2) 0.5%float 1%float (Some (arr 0 [(-1)%float; 2%float]))
              100%Z false {| next_id := 1; calls := [] |} (env scenario_world)
              scenario_solver eq_refl) as (Hf & Hin & Hrec).
  split; [exact Hf|]. split; [exact Hin|].
  assert (Hrun : snd (itstat_insert (itstat_insert_func (self scenario_world))
                        scenario_world)
                 = Ok [VInt 0; VFloat 0%float; VFloat infinity; VFloat 0%float;
                       VFloat 0%float]) by reflexivity.
  destruct (Hrec scenario_world _ eq_refl Hrun) as (_ & Hlen & _).
  exact Hlen.
Defined.

Lemma solve_raise_keeps_progress_witness :
  exists (j : nat) (recs : list (list value)),
    (Z.of_nat j < maxiter (self denoiser_world))%Z /\
    itnum (self (after (solve None) denoiser_world))
    = (itnum (self denoiser_world) + Z.of_nat j)%Z /\
    itstat_object (self (after (solve None) denoiser_world))
    = extended (itstat_object (self denoiser_world)) recs /\
    (List.length recs = j \/ (@None (Snapshot -> cres unit) <> None /\
                              List.length recs = S j)) /\
    maxiter (self (after (solve None) denoiser_world)) = maxiter (self denoiser_world).
Proof.
  apply (solve_raise_keeps_progress None denoiser_world
           (AttributeError "'LinearizedADMM' object has no attribute 'i'")).
  reflexivity.
Defined.

Lemma solve_pauses_timer_witness :
  timer (self (after (solve watch) (with_maxiter 2 total_world)))
  = stop (Nat.iter (Z.to_nat (maxiter (self (with_maxiter 2 total_world)))) (pause watch)
            (start (timer (self (with_maxiter 2 total_world))))) /\
  laps (timer (self (after (solve watch) (with_maxiter 2 total_world)))) = 3.
Proof.
  split; [|reflexivity].
  apply (solve_pauses_timer watch (with_maxiter 2 total_world)).
  exists (x (self (after (solve watch) (with_maxiter 2 total_world)))).
  vm_compute. reflexivity.
Defined.

Lemma itnum_never_decreases_witness :
  (itnum (self scenario_world)
   <= itnum (self (after (solve None) (with_maxiter 2 scenario_world))))%Z /\
  (constructed scenario_world ->
   (0 <= itnum (self (after (solve None) (with_maxiter 2 scenario_world))))%Z).
Proof.
  apply (itnum_never_decreases scenario_world
           (after (solve None) (with_maxiter 2 scenario_world))).
  apply reach_solve, reach_maxiter, reach_here.
Defined.

Lemma setup_is_fixed_witness :
  f (self (after step denoiser_world)) = f (self denoiser_world) /\
  g (self (after step denoiser_world)) = g (self denoiser_world) /\
  C (self (after step denoiser_world)) = C (self denoiser_world) /\
  mu (self (after step denoiser_world)) = mu (self denoiser_world) /\
  nu (self (after step denoiser_world)) = nu (self denoiser_world) /\
  verbose (self (after step denoiser_world)) = verbose (self denoiser_world) /\
  itstat_insert_func (self (after step denoiser_world))
  = itstat_insert_func (self denoiser_world) /\
  fields (itstat_object (self (after step denoiser_world)))
  = fields (itstat_object (self denoiser_world)).
Proof.
  apply (setup_is_fixed denoiser_world (after step denoiser_world)).
  apply reach_step, reach_here.
Defined.

Lemma solve_repeatedly_adds_up_witness :
  itnum (self (after (solve_repeatedly 2 None) (with_maxiter 2 scenario_world)))
  = (itnum (self (with_maxiter 2 scenario_world))
     + Z.of_nat 2 * maxiter (self (with_maxiter 2 scenario_world)))%Z /\
  spec_updates (2 * Z.to_nat (maxiter (self (with_maxiter 2 scenario_world))))
    (self (with_maxiter 2 scenario_world))
    (iterates (self (with_maxiter 2 scenario_world)))
  = Some (iterates (self (after (solve_repeatedly 2 None)
                            (with_maxiter 2 scenario_world)))) /\
  maxiter (self (after (solve_repeatedly 2 None) (with_maxiter 2 scenario_world)))
  = maxiter (self (with_maxiter 2 scenario_world)).
Proof.
  apply (solve_repeatedly_adds_up None 2 (with_maxiter 2 scenario_world)).
  - simpl. lia.
  - vm_compute. reflexivity.
Defined.
